(** * Scene lifecycle and driver loop of pygame-scene-manager

    A shallow embedding of [scenes/scene.py], [scenes/play_scene1.py],
    [scenes/end_scene.py], [game.py] and the single-file prototype
    [scene_manager.py], followed by the properties of the scene state
    machine: asset loading on [enter], the transition protocol of
    [Game.run], and the quit-signal filter.

    Python objects live in a store indexed by object identity, so that
    [is] / [is not] and the sharing of the scenes of the registry are
    modelled as they are in the program.  Methods are computations in a
    state monad in which a raised exception keeps the state reached so
    far, as in Python. *)

From Stdlib Require Import ZArith.
From stdpp Require Import gmap strings list.

Local Open Scope string_scope.
Local Open Scope Z_scope.

(** ** The part of pygame the program names *)

Module pygame.

(** Event types and key codes (pygame 2 values). *)
Definition QUIT : Z := 256.
Definition KEYDOWN : Z := 768.
Definition KEYUP : Z := 769.
Definition K_SPACE : Z := 32.
Definition K_q : Z := 113.
Definition K_RIGHT : Z := 1073741903.
Definition K_UP : Z := 1073741906.
Definition K_LCTRL : Z := 1073742048.
Definition K_RCTRL : Z := 1073742052.

(** An event of [pygame.event.get()]; [key] is read for key events only. *)
Record Event := mkEvent { type : Z; key : Z }.

(** The result of [pygame.key.get_pressed()], indexed by key code. *)
Definition ScancodeWrapper := Z → bool.

(** [pygame.font.Font(None, size)]: an opaque resource. *)
Inductive Font := mkFont (size : Z).

End pygame.

Import pygame.

(** ** Exceptions and the effect monad *)

Inductive exn := NotImplementedError | AttributeError | KeyError.

(** A computation over a state [S]: it ends with a value or with a raised
    exception, and in both cases with the state it has reached. *)
Definition Eff (S A : Type) : Type := S → (exn + A) * S.

#[global] Instance Eff_ret {S} : MRet (Eff S) :=
  λ A (a : A) s, (inr a, s).

#[global] Instance Eff_bind {S} : MBind (Eff S) :=
  λ A B (f : A → Eff S B) (m : Eff S A) s,
    match m s with
    | (inr a, s') => f a s'
    | (inl e, s') => (inl e, s')
    end.

Definition raise {S A} (e : exn) : Eff S A := λ s, (inl e, s).
Definition gets {S A} (f : S → A) : Eff S A := λ s, (inr (f s), s).
Definition modify {S} (f : S → S) : Eff S unit := λ s, (inr tt, f s).

(** [for x in l: body(x)] *)
Fixpoint for_ {S A} (l : list A) (body : A → Eff S unit) : Eff S unit :=
  match l with
  | [] => mret tt
  | x :: l' => body x;; for_ l' body
  end.

(** [if c: body] *)
Definition when {S} (c : bool) (body : Eff S unit) : Eff S unit :=
  if c then body else mret tt.

(** ** Objects *)

(** Object identity. *)
Definition ref := nat.

(** A value that is [None] or a scene. *)
Inductive pyref := PyNone | PyObj (r : ref).

#[global] Instance pyref_eq_dec : EqDecision pyref.
Proof. solve_decision. Defined.

(** [a is not b] *)
Definition is_not (a b : pyref) : bool := bool_decide (a ≠ b).

(** The attributes of a scene object.  The four flags are assigned by
    [Scene.__init__]; [next_scene] is first assigned by [enter] and
    [font_xl] by [load_assets], so they start out unset ([None] here).
    For [font_xl], unset and Python's [None] are not told apart: reading
    [.render] from either raises [AttributeError]. *)
Record SceneObj := mkSceneObj {
  cls : string;
  cleanup_on_terminate : bool;
  delay_asset_loading : bool;
  assets_loaded : bool;
  terminated : bool;
  next_scene : option pyref;
  font_xl : option Font
}.

Definition set_cleanup_on_terminate (b : bool) (o : SceneObj) : SceneObj :=
  mkSceneObj (cls o) b (delay_asset_loading o) (assets_loaded o)
             (terminated o) (next_scene o) (font_xl o).
Definition set_delay_asset_loading (b : bool) (o : SceneObj) : SceneObj :=
  mkSceneObj (cls o) (cleanup_on_terminate o) b (assets_loaded o)
             (terminated o) (next_scene o) (font_xl o).
Definition set_assets_loaded (b : bool) (o : SceneObj) : SceneObj :=
  mkSceneObj (cls o) (cleanup_on_terminate o) (delay_asset_loading o) b
             (terminated o) (next_scene o) (font_xl o).
Definition set_terminated (b : bool) (o : SceneObj) : SceneObj :=
  mkSceneObj (cls o) (cleanup_on_terminate o) (delay_asset_loading o)
             (assets_loaded o) b (next_scene o) (font_xl o).
Definition set_next_scene (n : pyref) (o : SceneObj) : SceneObj :=
  mkSceneObj (cls o) (cleanup_on_terminate o) (delay_asset_loading o)
             (assets_loaded o) (terminated o) (Some n) (font_xl o).
Definition set_font_xl (f : option Font) (o : SceneObj) : SceneObj :=
  mkSceneObj (cls o) (cleanup_on_terminate o) (delay_asset_loading o)
             (assets_loaded o) (terminated o) (next_scene o) f.

(** A freshly allocated instance of class [c], before [__init__]. *)
Definition blank (c : string) : SceneObj :=
  mkSceneObj c false false false false None None.

#[global] Instance SceneObj_inhabited : Inhabited SceneObj :=
  populate (blank "Scene").

(** What scene code works on: the scene objects, and through [self.game]
    the registry [game.scenes].  The scenes of the repository read
    [self.game.scenes], the screen and its size, and assign attributes of
    [self] only; the driver's [active_scene] is therefore kept apart from
    this record, out of reach of the methods of a scene class. *)
Record World := mkWorld {
  scenes : gmap string ref;
  objs : gmap ref SceneObj
}.

Definition obj (w : World) (r : ref) : SceneObj := objs w !!! r.

(** [r.attr = v], as an update [f] of the object. *)
Definition setattr (r : ref) (f : SceneObj → SceneObj) : Eff World unit :=
  modify (λ w, mkWorld (scenes w) (<[r := f (obj w r)]> (objs w))).

(** [r.attr] for an attribute that [__init__] assigns. *)
Definition getattr {A} (r : ref) (f : SceneObj → A) : Eff World A :=
  gets (λ w, f (obj w r)).

(** [r.attr] for an attribute that may be unset. *)
Definition getattr_opt {A} (r : ref) (f : SceneObj → option A) : Eff World A :=
  λ w, match f (obj w r) with
       | Some a => (inr a, w)
       | None => (inl AttributeError, w)
       end.

(** [self.game.scenes[name]] *)
Definition scenes_getitem (name : string) : Eff World ref :=
  λ w, match scenes w !! name with
       | Some r => (inr r, w)
       | None => (inl KeyError, w)
       end.

(** ** Classes

    The methods a scene class of the repository defines itself;
    [__init__] (which only calls [super().__init__]), [enter], [exit] and
    [terminate] are those of [Scene]. *)
Record SceneClass := mkSceneClass {
  c_load_assets : ref → Eff World unit;
  c_cleanup : ref → Eff World unit;
  c_process_input : ref → list Event → ScancodeWrapper → Eff World unit;
  c_update : ref → Eff World unit;
  c_render : ref → Eff World unit
}.

(** ** The call log

    Which calls were made, in order, and by whom: the loop of the driver,
    or a method of [Scene] calling another method on [self]. *)

Inductive caller := Driver | Self.

Inductive method :=
| load_assets_
| enter_
| exit_
| terminate_
| cleanup_
| process_input_ (events : list Event)
| update_
| render_.

Inductive entry :=
| Call (by_ : caller) (self : ref) (m : method)
| display_flip
| clock_tick
| pygame_quit.

(** The running program: the scene store, the driver's own attributes
    [active_scene] and [previous_scene] (unset until the first
    transition), and the log. *)
Record Runtime := mkRuntime {
  world : World;
  active_scene : pyref;
  previous_scene : option pyref;
  log : list entry
}.

Definition lift {A} (h : Eff World A) : Eff Runtime A :=
  λ s, let '(r, w) := h (world s) in
       (r, mkRuntime w (active_scene s) (previous_scene s) (log s)).

Definition record (e : entry) : Eff Runtime unit :=
  modify (λ s, mkRuntime (world s) (active_scene s) (previous_scene s)
                         (log s ++ [e])%list).

Definition set_active_scene (a : pyref) : Eff Runtime unit :=
  modify (λ s, mkRuntime (world s) a (previous_scene s) (log s)).

Definition set_previous_scene (p : pyref) : Eff Runtime unit :=
  modify (λ s, mkRuntime (world s) (active_scene s) (Some p) (log s)).

(** How far a driver loop got on a finite recording of what the player
    did. *)
Inductive outcome :=
| Returned  (* the loop ended and [run] returned *)
| Waiting.  (* still looping: the recording is used up *)

(** ** scenes/scene.py *)

Module Scene.

(** The bodies of the methods that subclasses are meant to override. *)
Definition load_assets (self : ref) : Eff World unit := mret tt.
Definition cleanup (self : ref) : Eff World unit := mret tt.
Definition process_input (self : ref) (events : list Event)
    (pressed_keys : ScancodeWrapper) : Eff World unit :=
  raise NotImplementedError.
Definition update (self : ref) : Eff World unit := raise NotImplementedError.
Definition render (self : ref) : Eff World unit := raise NotImplementedError.

(** A class that overrides nothing. *)
Definition class : SceneClass :=
  mkSceneClass load_assets cleanup process_input update render.

Section methods.

Variable classes : string → SceneClass.

(** Method lookup on the class of the receiver. *)
Definition class_of (self : ref) : Eff Runtime SceneClass :=
  lift (getattr self (λ o, classes (cls o))).

(** [self.load_assets()] and [self.cleanup()], called by [by_]. *)
Definition call_load_assets (by_ : caller) (self : ref) : Eff Runtime unit :=
  record (Call by_ self load_assets_);;
  c ← class_of self;
  lift (c_load_assets c self).

Definition call_cleanup (by_ : caller) (self : ref) : Eff Runtime unit :=
  record (Call by_ self cleanup_);;
  c ← class_of self;
  lift (c_cleanup c self).

Definition __init__ (self : ref) (kwargs : gmap string bool) : Eff Runtime unit :=
  lift (setattr self (set_cleanup_on_terminate
                        (default true (kwargs !! "cleanup_on_terminate"))));;
  lift (setattr self (set_delay_asset_loading
                        (default true (kwargs !! "delay_asset_loading"))));;
  lift (setattr self (set_assets_loaded false));;
  lift (setattr self (set_terminated false));;
  delay ← lift (getattr self delay_asset_loading);
  when (negb delay) (call_load_assets Self self).

Definition enter (self : ref) : Eff Runtime unit :=
  lift (setattr self (set_next_scene (PyObj self)));;
  loaded ← lift (getattr self assets_loaded);
  when (negb loaded)
    (call_load_assets Self self;;
     lift (setattr self (set_assets_loaded true))).

Definition exit (self : ref) : Eff Runtime unit := mret tt.

Definition terminate (self : ref) : Eff Runtime unit :=
  c ← lift (getattr self cleanup_on_terminate);
  when c (call_cleanup Self self).

(** The remaining calls [by_] can make on a scene: the call is logged,
    then the method of the receiver's class runs. *)
Definition call_enter (by_ : caller) (self : ref) : Eff Runtime unit :=
  record (Call by_ self enter_);; enter self.

Definition call_exit (by_ : caller) (self : ref) : Eff Runtime unit :=
  record (Call by_ self exit_);; exit self.

Definition call_terminate (by_ : caller) (self : ref) : Eff Runtime unit :=
  record (Call by_ self terminate_);; terminate self.

Definition call_process_input (by_ : caller) (self : ref)
    (events : list Event) (pressed_keys : ScancodeWrapper) : Eff Runtime unit :=
  record (Call by_ self (process_input_ events));;
  c ← class_of self;
  lift (c_process_input c self events pressed_keys).

Definition call_update (by_ : caller) (self : ref) : Eff Runtime unit :=
  record (Call by_ self update_);;
  c ← class_of self;
  lift (c_update c self).

Definition call_render (by_ : caller) (self : ref) : Eff Runtime unit :=
  record (Call by_ self render_);;
  c ← class_of self;
  lift (c_render c self).

End methods.

End Scene.

(** ** scenes/play_scene1.py *)

Module PlayScene1.

Definition load_assets (self : ref) : Eff World unit :=
  setattr self (set_font_xl (Some (mkFont 96))).

Definition cleanup (self : ref) : Eff World unit :=
  setattr self (set_font_xl None);;
  setattr self (set_assets_loaded false).

Definition process_input (self : ref) (events : list Event)
    (pressed_keys : ScancodeWrapper) : Eff World unit :=
  for_ events (λ event,
    when (type event =? KEYDOWN)
      (if key event =? K_RIGHT then
         n ← scenes_getitem "play2";
         setattr self (set_next_scene (PyObj n));;
         setattr self (set_terminated true)
       else
         when (key event =? K_UP)
           (n ← scenes_getitem "special";
            setattr self (set_next_scene (PyObj n))))).

Definition update (self : ref) : Eff World unit := mret tt.

(** Drawing goes to the display, which is not part of the scene store;
    what is kept is the read of [self.font_xl.render]. *)
Definition render (self : ref) : Eff World unit :=
  _ ← getattr_opt self font_xl; mret tt.

Definition class : SceneClass :=
  mkSceneClass load_assets cleanup process_input update render.

End PlayScene1.

(** ** scenes/end_scene.py *)

Module EndScene.

Definition load_assets (self : ref) : Eff World unit :=
  setattr self (set_font_xl (Some (mkFont 96))).

Definition cleanup (self : ref) : Eff World unit :=
  setattr self (set_font_xl None);;
  setattr self (set_assets_loaded false).

Definition process_input (self : ref) (events : list Event)
    (pressed_keys : ScancodeWrapper) : Eff World unit :=
  for_ events (λ event,
    when (type event =? KEYDOWN)
      (when (key event =? K_RIGHT)
         (n ← scenes_getitem "title";
          setattr self (set_next_scene (PyObj n));;
          setattr self (set_terminated true)))).

Definition update (self : ref) : Eff World unit := mret tt.

Definition render (self : ref) : Eff World unit :=
  _ ← getattr_opt self font_xl; mret tt.

Definition class : SceneClass :=
  mkSceneClass load_assets cleanup process_input update render.

End EndScene.

(** The classes of the repository whose source is at hand; any other
    class name stands for a class that overrides nothing. *)
Definition repo_classes (c : string) : SceneClass :=
  if decide (c = "PlayScene1") then PlayScene1.class
  else if decide (c = "EndScene") then EndScene.class
  else Scene.class.

(** ** game.py *)

Module Game.

Definition FPS : Z := 60.

Definition is_quit_event (event : Event) (pressed_keys : ScancodeWrapper) : bool :=
  let x_out := type event =? QUIT in
  let ctrl := pressed_keys K_LCTRL || pressed_keys K_RCTRL in
  let q := pressed_keys K_q in
  x_out || (ctrl && q).

(** The [for event in pygame.event.get()] loop of [run]: the new value of
    [running] and [filtered_events]. *)
Definition get_user_input (pressed_keys : ScancodeWrapper) (events : list Event)
    (running : bool) : bool * list Event :=
  fold_left
    (λ '(running, filtered_events) event,
       if is_quit_event event pressed_keys
       then (false, filtered_events)
       else (running, (filtered_events ++ [event])%list))
    events (running, []).

(** A method call on the value of an attribute that may hold [None]. *)
Definition on {A} (target : pyref) (m : ref → Eff Runtime A) : Eff Runtime A :=
  match target with
  | PyObj r => m r
  | PyNone => raise AttributeError
  end.

Section driver.

Variable classes : string → SceneClass.

(** [ClassName(self, **kwargs)]: a new object, then [__init__], which in
    the scene classes of the repository only calls [Scene.__init__]. *)
Definition construct (c : string) (kwargs : gmap string bool) : Eff Runtime ref :=
  self ← gets (λ s, fresh (dom (objs (world s))));
  lift (modify (λ w, mkWorld (scenes w) (<[self := blank c]> (objs w))));;
  Scene.__init__ classes self kwargs;;
  mret self.

Definition __init__ : Eff Runtime unit :=
  title ← construct "TitleScene" {["delay_asset_loading" := false]};
  play1 ← construct "PlayScene1" {["cleanup_on_terminate" := true]};
  play2 ← construct "PlayScene2" {["cleanup_on_terminate" := true]};
  special ← construct "SpecialScene"
              (<["delay_asset_loading" := false]>
                 {["cleanup_on_terminate" := false]});
  end_ ← construct "EndScene" ∅;
  lift (modify (λ w, mkWorld
     (<["title" := title]> (<["play1" := play1]> (<["play2" := play2]>
        (<["special" := special]> {["end" := end_]}))))
     (objs w)));;
  a ← lift (scenes_getitem "title");
  set_active_scene (PyObj a);;
  a ← gets active_scene;
  on a (Scene.call_enter classes Driver).

(** [# Manage scene] *)
Definition manage_scene (filtered_events : list Event)
    (pressed_keys : ScancodeWrapper) : Eff Runtime unit :=
  a ← gets active_scene;
  on a (λ r, Scene.call_process_input classes Driver r filtered_events pressed_keys);;
  a ← gets active_scene;
  on a (Scene.call_update classes Driver);;
  a ← gets active_scene;
  on a (Scene.call_render classes Driver).

(** [# Check for scene change] *)
Definition check_for_scene_change : Eff Runtime unit :=
  current_scene ← gets active_scene;
  n ← on current_scene (λ r, lift (getattr_opt r next_scene));
  set_active_scene n;;
  a ← gets active_scene;
  when (is_not current_scene a)
    (set_previous_scene current_scene;;
     on current_scene (Scene.call_exit Driver);;
     t ← on current_scene (λ r, lift (getattr r terminated));
     when t (on current_scene (Scene.call_cleanup classes Driver));;
     a ← gets active_scene;
     on a (Scene.call_enter classes Driver)).

(** [# Update and tick] *)
Definition update_and_tick : Eff Runtime unit :=
  record display_flip;;
  record clock_tick.

(** One pass through the body of [while running]; the result is the value
    of [running] at the end of the pass. *)
Definition frame (pressed_keys : ScancodeWrapper) (events : list Event)
    (running : bool) : Eff Runtime bool :=
  let '(running, filtered_events) :=
    get_user_input pressed_keys events running in
  manage_scene filtered_events pressed_keys;;
  check_for_scene_change;;
  update_and_tick;;
  mret running.

(** [while running: ...], then [pygame.quit()], the last statement of
    [run].  Each element of [inputs] is what one pass reads: the pressed
    keys and the pending events. *)
Fixpoint loop (inputs : list (ScancodeWrapper * list Event)) (running : bool)
    : Eff Runtime outcome :=
  if running then
    match inputs with
    | [] => mret Waiting
    | (pressed_keys, events) :: inputs' =>
        running ← frame pressed_keys events running;
        loop inputs' running
    end
  else
    record pygame_quit;; mret Returned.

Definition run (inputs : list (ScancodeWrapper * list Event)) : Eff Runtime outcome :=
  loop inputs true.

End driver.

End Game.

(** ** scene_manager.py, the single-file prototype

    Scenes are not kept in a registry here: a transition constructs the
    next scene.  The four classes are all in the file, so method lookup
    is a case distinction on the class. *)

Module scene_manager.

Inductive class := Scene | TitleScene | PlayScene | EndScene.

Record Obj := mkObj { cls : class; next_scene : pyref }.

#[global] Instance Obj_inhabited : Inhabited Obj := populate (mkObj Scene PyNone).

(** The objects, the driver's [active_scene], what was printed, and the
    log of the calls the driver made. *)
Record Runtime := mkRuntime {
  objs : gmap ref Obj;
  active_scene : pyref;
  stdout : list string;
  log : list entry
}.

Definition obj (s : Runtime) (r : ref) : Obj := objs s !!! r.

Definition set_next_scene (self : ref) (n : pyref) : Eff Runtime unit :=
  modify (λ s, mkRuntime (<[self := mkObj (cls (obj s self)) n]> (objs s))
                         (active_scene s) (stdout s) (log s)).

Definition set_active_scene (a : pyref) : Eff Runtime unit :=
  modify (λ s, mkRuntime (objs s) a (stdout s) (log s)).

Definition print (line : string) : Eff Runtime unit :=
  modify (λ s, mkRuntime (objs s) (active_scene s) (stdout s ++ [line])%list (log s)).

Definition record (e : entry) : Eff Runtime unit :=
  modify (λ s, mkRuntime (objs s) (active_scene s) (stdout s) (log s ++ [e])%list).

(** [Scene.__init__] *)
Definition Scene__init__ (self : ref) : Eff Runtime unit :=
  set_next_scene self (PyObj self).

(** [TitleScene()], [PlayScene()], [EndScene()]: a new object, then the
    [__init__] of the class. *)
Definition construct (c : class) : Eff Runtime ref :=
  self ← gets (λ s, fresh (dom (objs s)));
  modify (λ s, mkRuntime (<[self := mkObj c PyNone]> (objs s))
                         (active_scene s) (stdout s) (log s));;
  Scene__init__ self;;
  match c with
  | Scene => mret tt
  | TitleScene => print "title scene"
  | PlayScene => print "play scene"
  | EndScene => print "end scene"
  end;;
  mret self.

Definition process_input (self : ref) (events : list Event)
    (pressed_keys : ScancodeWrapper) : Eff Runtime unit :=
  c ← gets (λ s, cls (obj s self));
  match c with
  | Scene => raise NotImplementedError
  | TitleScene =>
      for_ events (λ event,
        when (type event =? KEYDOWN)
          (print "down";;
           when (key event =? K_SPACE)
             (print "space";;
              n ← construct PlayScene;
              set_next_scene self (PyObj n))))
  | PlayScene =>
      for_ events (λ event,
        when (type event =? KEYDOWN)
          (when (key event =? K_SPACE)
             (n ← construct EndScene;
              set_next_scene self (PyObj n))))
  | EndScene =>
      for_ events (λ event,
        when (type event =? KEYDOWN)
          (print "down";;
           when (key event =? K_SPACE)
             (print "space";;
              n ← construct TitleScene;
              set_next_scene self (PyObj n))))
  end.

Definition update (self : ref) : Eff Runtime unit :=
  c ← gets (λ s, cls (obj s self));
  match c with
  | Scene => raise NotImplementedError
  | _ => mret tt
  end.

(** Drawing goes to the display and leaves the objects alone. *)
Definition render (self : ref) : Eff Runtime unit :=
  c ← gets (λ s, cls (obj s self));
  match c with
  | Scene => raise NotImplementedError
  | _ => mret tt
  end.

(** The same body in [Scene] and in its three subclasses. *)
Definition terminate (self : ref) : Eff Runtime unit :=
  set_next_scene self PyNone.

(** A method call on the value of [self.active_scene]. *)
Definition on {A} (target : pyref) (m : ref → Eff Runtime A) : Eff Runtime A :=
  match target with
  | PyObj r => m r
  | PyNone => raise AttributeError
  end.

Module MyGame.

Definition __init__ (start_scene : pyref) : Eff Runtime unit :=
  set_active_scene start_scene.

Definition is_quit_event (event : Event) (pressed_keys : ScancodeWrapper) : bool :=
  let x_out := type event =? QUIT in
  let ctrl := pressed_keys K_LCTRL || pressed_keys K_RCTRL in
  let q := pressed_keys K_q in
  x_out || (ctrl && q).

(** [# event handling]: the [for] loop over the pending events, started
    with the [filtered_events] built so far. *)
Fixpoint event_handling (pressed_keys : ScancodeWrapper) (events : list Event)
    (filtered_events : list Event) : Eff Runtime (list Event) :=
  match events with
  | [] => mret filtered_events
  | event :: events' =>
      if is_quit_event event pressed_keys then
        a ← gets active_scene;
        on a (λ r, record (Call Driver r terminate_);; terminate r);;
        event_handling pressed_keys events' filtered_events
      else
        event_handling pressed_keys events' (filtered_events ++ [event])%list
  end.

(** [# game logic], up to and including [render]. *)
Definition game_logic (filtered_events : list Event)
    (pressed_keys : ScancodeWrapper) : Eff Runtime unit :=
  a ← gets active_scene;
  on a (λ r, record (Call Driver r (process_input_ filtered_events));;
             process_input r filtered_events pressed_keys);;
  a ← gets active_scene;
  on a (λ r, record (Call Driver r update_);; update r);;
  a ← gets active_scene;
  on a (λ r, record (Call Driver r render_);; render r).

(** [self.active_scene = self.active_scene.next_scene] *)
Definition advance : Eff Runtime unit :=
  a ← gets active_scene;
  n ← on a (λ r, gets (λ s, next_scene (obj s r)));
  set_active_scene n.

Definition update_and_tick : Eff Runtime unit :=
  record display_flip;;
  record clock_tick.

(** One pass through the body of the [while] loop. *)
Definition frame (pressed_keys : ScancodeWrapper) (events : list Event)
    : Eff Runtime unit :=
  filtered_events ← event_handling pressed_keys events [];
  game_logic filtered_events pressed_keys;;
  advance;;
  update_and_tick.

(** [while self.active_scene != None: ...] *)
Fixpoint run (inputs : list (ScancodeWrapper * list Event)) : Eff Runtime outcome :=
  a ← gets active_scene;
  if bool_decide (a ≠ PyNone) then
    match inputs with
    | [] => mret Waiting
    | (pressed_keys, events) :: inputs' =>
        frame pressed_keys events;;
        run inputs'
    end
  else mret Returned.

End MyGame.

(** [if __name__ == "__main__":] up to the end of [game.run()]. *)
Definition main (inputs : list (ScancodeWrapper * list Event)) : Eff Runtime outcome :=
  start_scene ← construct TitleScene;
  MyGame.__init__ (PyObj start_scene);;
  MyGame.run inputs.

End scene_manager.

(** ** Sample inputs *)

(** No key is held. *)
Definition no_keys : ScancodeWrapper := λ _, false.

(** Left Ctrl and Q are held. *)
Definition ctrl_q : ScancodeWrapper := λ k, (k =? K_LCTRL) || (k =? K_q).

(** Before [Game()]: no object yet. *)
Definition boot : Runtime := mkRuntime (mkWorld ∅ ∅) PyNone None [].

(** After [Game()]. *)
Definition started : Runtime := snd (Game.__init__ repo_classes boot).

(** The scene registered as [name] becomes the active scene and is
    entered. *)
Definition arrive (name : string) : Eff Runtime unit :=
  r ← lift (scenes_getitem name);
  set_active_scene (PyObj r);;
  Scene.call_enter repo_classes Driver r.

Definition in_play1 : Runtime := snd (arrive "play1" started).

(** [Scene(game)] alone, entered once: an instance of the base class. *)
Definition plain_scene : Runtime :=
  snd ((r ← Game.construct repo_classes "Scene" ∅;
        Scene.call_enter repo_classes Driver r) boot).

(** [PlayScene1(game, delay_asset_loading=False)], then its first
    [enter()]. *)
Definition eager_play1 : Eff Runtime unit :=
  r ← Game.construct repo_classes "PlayScene1" {["delay_asset_loading" := false]};
  Scene.call_enter repo_classes Driver r.

(** A game whose registry holds a title scene and
    [EndScene(game, cleanup_on_terminate=False)], with the end scene
    active. *)
Definition keep_end : Runtime :=
  snd ((title ← Game.construct repo_classes "TitleScene"
                  {["delay_asset_loading" := false]};
        end_ ← Game.construct repo_classes "EndScene"
                 {["cleanup_on_terminate" := false]};
        lift (modify (λ w, mkWorld (<["title" := title]> {["end" := end_]})
                                   (objs w)));;
        arrive "end") boot).

(** Play scene 1 is active and the player has pressed the right arrow:
    the state in which the frame reaches its check for a scene change. *)
Definition play1_right_pressed : Runtime :=
  snd (Game.manage_scene repo_classes [mkEvent KEYDOWN K_RIGHT] no_keys in_play1).

(** Play scene 1 is active and its [next_scene] has been set to [None]. *)
Definition play1_nulled : Runtime :=
  snd (lift (setattr 1%nat (set_next_scene PyNone)) in_play1).

(** The prototype before and after [MyGame(TitleScene())]. *)
Definition proto_boot : scene_manager.Runtime :=
  scene_manager.mkRuntime ∅ PyNone [] [].

Definition proto_title : scene_manager.Runtime :=
  snd ((start_scene ← scene_manager.construct scene_manager.TitleScene;
        scene_manager.MyGame.__init__ (PyObj start_scene)) proto_boot).

(** The entries [s'] has added to the log of [s]. *)
Definition calls_since (s s' : Runtime) : list entry :=
  drop (length (log s)) (log s').

(** ** Vocabulary of the properties *)

(** The three calls the driver makes on the active scene [r] in every
    frame, in order. *)
Definition managed (r : ref) (filtered_events : list Event) : list entry :=
  [Call Driver r (process_input_ filtered_events);
   Call Driver r update_;
   Call Driver r render_].

Definition is_process_input (e : entry) : bool :=
  match e with
  | Call _ _ (process_input_ _) => true
  | _ => false
  end.

Definition is_update_or_render (e : entry) : bool :=
  match e with
  | Call _ _ (update_ | render_) => true
  | _ => false
  end.

(** The calls a scene change consists of. *)
Definition is_transition (e : entry) : bool :=
  match e with
  | Call _ _ (exit_ | cleanup_ | enter_ | load_assets_) => true
  | _ => false
  end.

(** The test [filtered_events] is built with. *)
Abbreviation non_quit keys := (λ e, negb (Game.is_quit_event e keys)).

(** A method body that does not assign [self.next_scene]. *)
Definition keeps_next_scene (h : ref → Eff World unit) : Prop :=
  ∀ self w, next_scene (obj (snd (h self w)) self) = next_scene (obj w self).

(** The prototype's scene code leaves [active_scene] and the log alone. *)
Definition same_driver (s s' : scene_manager.Runtime) : Prop :=
  scene_manager.active_scene s' = scene_manager.active_scene s ∧
  scene_manager.log s' = scene_manager.log s.

(** ** The scene change as described

    The transition of step 6 of the description, in the order given
    there: [exit()] of the outgoing scene, its [cleanup()] if it is
    terminated, then the assignment of the active scene, then
    [enter()]. *)
Definition transition_as_described (classes : string → SceneClass)
    (outgoing successor : ref) : Eff Runtime unit :=
  Scene.call_exit Driver outgoing;;
  t ← lift (getattr outgoing terminated);
  when t (Scene.call_cleanup classes Driver outgoing);;
  set_active_scene (PyObj successor);;
  Scene.call_enter classes Driver successor.

(** A scene class whose [cleanup] fails: it looks up a scene that is not
    registered. *)
Definition FragileScene : SceneClass :=
  mkSceneClass Scene.load_assets
    (λ self, _ ← scenes_getitem "missing"; mret tt)
    Scene.process_input Scene.update Scene.render.

Definition fragile_classes (c : string) : SceneClass :=
  if decide (c = "FragileScene") then FragileScene else repo_classes c.

(** A fragile scene is active, terminated, and asks for an end scene. *)
Definition fragile_leaving : Runtime :=
  snd ((a ← Game.construct fragile_classes "FragileScene" ∅;
        b ← Game.construct fragile_classes "EndScene" ∅;
        set_active_scene (PyObj a);;
        Scene.call_enter fragile_classes Driver a;;
        lift (setattr a (set_next_scene (PyObj b)));;
        lift (setattr a (set_terminated true))) boot).

(** ** Vocabulary of the further properties *)

(** A press of key [k]. *)
Definition is_keydown (k : Z) (e : Event) : bool :=
  (type e =? KEYDOWN) && (key e =? k).

(** What one event does to a play scene 1, given the scenes registered
    as ["play2"] and ["special"]. *)
Definition play1_step (play2 special : ref) (o : SceneObj) (e : Event) : SceneObj :=
  if is_keydown K_RIGHT e then set_terminated true (set_next_scene (PyObj play2) o)
  else if is_keydown K_UP e then set_next_scene (PyObj special) o
  else o.

(** The successor play scene 1 asks for after a frame's events: decided
    by the last press of the right or the up arrow. *)
Definition play1_next (play2 special : ref) (events : list Event)
    (before : option pyref) : option pyref :=
  match last (List.filter (λ e, is_keydown K_RIGHT e || is_keydown K_UP e) events) with
  | Some e => Some (PyObj (if is_keydown K_RIGHT e then play2 else special))
  | None => before
  end.

(** What one event does to an end scene, given the scene registered as
    ["title"]. *)
Definition end_step (title : ref) (o : SceneObj) (e : Event) : SceneObj :=
  if is_keydown K_RIGHT e then set_terminated true (set_next_scene (PyObj title) o)
  else o.

(** The store [w'] differs from [w] at most in the object [r]. *)
Definition only_changes (r : ref) (w w' : World) : Prop :=
  scenes w' = scenes w ∧ ∀ r', r' ≠ r → obj w' r' = obj w r'.
(** The computation [m] takes a state to a state whose store is related
    to the one before by [R], whether it returns or raises. *)
Definition keeps {S A} (world_of : S → World) (R : World → World → Prop)
    (m : Eff S A) : Prop :=
  ∀ s, R (world_of s) (world_of (snd (m s))).

(** Every scene for which [flag] is set in [w] has it set in [w']. *)
Definition stays (flag : SceneObj → bool) (w w' : World) : Prop :=
  ∀ r, flag (obj w r) = true → flag (obj w' r) = true.

(** In the prototype: [s'] differs from [s] at most in what was
    printed. *)
Definition only_prints (s s' : scene_manager.Runtime) : Prop :=
  scene_manager.objs s' = scene_manager.objs s ∧
  scene_manager.active_scene s' = scene_manager.active_scene s ∧
  scene_manager.log s' = scene_manager.log s.

(** The class of the scene a prototype scene constructs on a press of the
    space bar. *)
Definition successor (c : scene_manager.class) : scene_manager.class :=
  match c with
  | scene_manager.TitleScene => scene_manager.PlayScene
  | scene_manager.PlayScene => scene_manager.EndScene
  | scene_manager.EndScene => scene_manager.TitleScene
  | scene_manager.Scene => scene_manager.Scene
  end.
(** In the prototype: what [process_input] of the scene [r] may do.  The
    driver's side and the class of [r] stay, the objects that exist stay
    as they are and go on existing, and [r] itself changes only if
    [pressed]: then its [next_scene] is an object that did not exist
    before, of class [c] and initialised. *)
Definition builds (c : scene_manager.class) (r : ref) (pressed : bool)
    (s s' : scene_manager.Runtime) : Prop :=
  scene_manager.active_scene s' = scene_manager.active_scene s ∧
  scene_manager.log s' = scene_manager.log s ∧
  scene_manager.cls (scene_manager.obj s' r)
  = scene_manager.cls (scene_manager.obj s r) ∧
  dom (scene_manager.objs s) ⊆ dom (scene_manager.objs s') ∧
  (∀ r', r' ∈ dom (scene_manager.objs s) → r' ≠ r →
         scene_manager.objs s' !! r' = scene_manager.objs s !! r') ∧
  (if pressed then
     ∃ n, (n ∉ dom (scene_manager.objs s)) ∧
          scene_manager.next_scene (scene_manager.obj s' r) = PyObj n ∧
          scene_manager.obj s' n = scene_manager.mkObj c (PyObj n)
   else scene_manager.objs s' = scene_manager.objs s).

(** Play scene 1 is active and asks for the title scene, which was
    entered when the game was constructed. *)
Definition play1_to_title : Runtime :=
  snd (lift (setattr 1%nat (set_next_scene (PyObj 0%nat))) in_play1).

(** ** Properties *)

Arguments obj : simpl never.
Arguments Game.construct : simpl never.
Arguments scene_manager.construct : simpl never.

(** Unfolds the methods down to functions on the state. *)
Ltac eff :=
  unfold Game.frame, Game.check_for_scene_change, Game.manage_scene,
         Game.update_and_tick, Game.on,
         Scene.call_enter, Scene.call_exit, Scene.call_terminate,
         Scene.__init__, Scene.enter, Scene.exit, Scene.terminate,
         Scene.call_cleanup, Scene.call_load_assets,
         Scene.call_process_input, Scene.call_update, Scene.call_render,
         Scene.class_of,
         record, when, set_active_scene, set_previous_scene,
         lift, getattr, getattr_opt, setattr, raise,
         mbind, Eff_bind, mret, Eff_ret, gets, modify;
  cbn.

Lemma obj_insert_eq sc (m : gmap ref SceneObj) r o :
  obj (mkWorld sc (<[r := o]> m)) r = o.
Proof. unfold obj; simpl. apply lookup_total_insert_eq. Qed.

Lemma bind_run {S A B} (m : Eff S A) (f : A → Eff S B) s :
  (m ≫= f) s
  = match m s with
    | (inr a, s') => f a s'
    | (inl e, s') => (inl e, s')
    end.
Proof. reflexivity. Qed.

(** *** The quit filter *)

Lemma get_user_input_acc keys events running acc :
  fold_left
    (λ '(running, filtered_events) event,
       if Game.is_quit_event event keys
       then (false, filtered_events)
       else (running, (filtered_events ++ [event])%list))
    events (running, acc)
  = (running && forallb (λ e, negb (Game.is_quit_event e keys)) events,
     (acc ++ List.filter (λ e, negb (Game.is_quit_event e keys)) events)%list).
Proof.
  revert running acc.
  induction events as [|e events IH]; intros running acc; simpl.
  - by rewrite andb_true_r, app_nil_r.
  - destruct (Game.is_quit_event e keys); simpl; rewrite IH.
    + by rewrite andb_false_r.
    + by rewrite <- app_assoc.
Qed.

(** What the [for] loop of [run] computes: [running] stays as it was
    unless some event is a quit signal, and [filtered_events] is the
    pending events without the quit signals, in order. *)
Lemma get_user_input_spec keys events running :
  Game.get_user_input keys events running
  = (running && forallb (λ e, negb (Game.is_quit_event e keys)) events,
     List.filter (λ e, negb (Game.is_quit_event e keys)) events).
Proof. unfold Game.get_user_input. by rewrite get_user_input_acc. Qed.

Lemma is_quit_event_ctrl_q (keys : ScancodeWrapper) event :
  (keys K_LCTRL || keys K_RCTRL) && keys K_q = true →
  Game.is_quit_event event keys = true.
Proof.
  intros H. unfold Game.is_quit_event. cbv zeta. rewrite H.
  apply orb_true_r.
Qed.

Lemma filter_all_quit (keys : ScancodeWrapper) events :
  (keys K_LCTRL || keys K_RCTRL) && keys K_q = true →
  List.filter (λ e, negb (Game.is_quit_event e keys)) events = [].
Proof.
  intros H. induction events as [|e events IH]; simpl; [done|].
  by rewrite is_quit_event_ctrl_q.
Qed.

(** *** The methods of [Scene] *)

Section scene_facts.

Variable classes : string → SceneClass.

(** [enter] leaves the driver's attributes alone, calls at most
    [load_assets], and returns with the assets marked as loaded. *)
Lemma enter_spec r s res s' :
  Scene.enter classes r s = (res, s') →
  active_scene s' = active_scene s ∧ previous_scene s' = previous_scene s ∧
  ∃ loads, log s' = (log s ++ loads)%list ∧
           (loads = [] ∨ loads = [Call Self r load_assets_]) ∧
           (res = inr tt → assets_loaded (obj (world s') r) = true).
Proof.
  destruct s as [w a p l]. eff. rewrite obj_insert_eq. cbn.
  destruct (assets_loaded (obj w r)) eqn:Hl; cbn.
  { intros [= <- <-]; cbn. repeat split. exists [].
    rewrite app_nil_r, obj_insert_eq. cbn. auto. }
  destruct (c_load_assets _ _ _) as [[e|[]] w1]; cbn.
  all: intros [= <- <-]; cbn; repeat split; eexists; (split; [done|]);
    split; auto; try done.
  intros _. by rewrite obj_insert_eq.
Qed.

Lemma call_enter_spec by_ r s res s' :
  Scene.call_enter classes by_ r s = (res, s') →
  active_scene s' = active_scene s ∧ previous_scene s' = previous_scene s ∧
  ∃ loads, log s' = (log s ++ Call by_ r enter_ :: loads)%list ∧
           (loads = [] ∨ loads = [Call Self r load_assets_]).
Proof.
  unfold Scene.call_enter, record, modify, mbind, Eff_bind. cbn.
  intros H. apply enter_spec in H as (Ha & Hp & loads & Hl & Hs & _).
  cbn in *. repeat split; try done.
  exists loads. by rewrite Hl, <- app_assoc.
Qed.

Lemma call_cleanup_spec by_ r s res s' :
  Scene.call_cleanup classes by_ r s = (res, s') →
  active_scene s' = active_scene s ∧ previous_scene s' = previous_scene s ∧
  log s' = (log s ++ [Call by_ r cleanup_])%list ∧
  c_cleanup (classes (cls (obj (world s) r))) r (world s) = (res, world s').
Proof.
  destruct s as [w a p l]. eff.
  destruct (c_cleanup _ _ _) as [res1 w1]. by intros [= <- <-].
Qed.

End scene_facts.

Lemma Scene_load_assets_keeps_next_scene : keeps_next_scene Scene.load_assets.
Proof. by intros self w. Qed.

Lemma PlayScene1_load_assets_keeps_next_scene :
  keeps_next_scene PlayScene1.load_assets.
Proof.
  intros self [sc m]. unfold PlayScene1.load_assets, setattr, modify. cbn.
  by rewrite obj_insert_eq.
Qed.

Lemma EndScene_load_assets_keeps_next_scene :
  keeps_next_scene EndScene.load_assets.
Proof. exact PlayScene1_load_assets_keeps_next_scene. Qed.

(** [enter] assigns [next_scene] before it loads the assets, so the
    assignment stands if [load_assets] leaves the attribute alone. *)
Lemma enter_next_scene classes (r : ref) (s s' : Runtime) :
  keeps_next_scene (c_load_assets (classes (cls (obj (world s) r)))) →
  Scene.enter classes r s = (inr tt, s') →
  next_scene (obj (world s') r) = Some (PyObj r).
Proof.
  intros Hk. destruct s as [w a p l]. eff. rewrite obj_insert_eq. cbn.
  destruct (assets_loaded (obj w r)); cbn.
  { intros [= <-]. cbn. by rewrite obj_insert_eq. }
  cbn in Hk. rewrite ?obj_insert_eq. cbn.
  match goal with |- context [c_load_assets ?c r ?w1] =>
    pose proof (Hk r w1) as Hn;
    destruct (c_load_assets c r w1) as [[e|[]] w2]
  end; cbn in *; [done|].
  intros [= <-]. cbn. rewrite obj_insert_eq. cbn.
  rewrite Hn. by rewrite obj_insert_eq.
Qed.

(** C5. For every scene whose [load_assets] does not itself assign
    [next_scene] (none in the repository does), when [enter()] returns
    the scene has [assets_loaded == True] and its [next_scene] is the
    scene itself. *)
Theorem enter_postcondition classes (r : ref) (s s' : Runtime) :
  keeps_next_scene (c_load_assets (classes (cls (obj (world s) r)))) →
  Scene.enter classes r s = (inr tt, s') →
  assets_loaded (obj (world s') r) = true ∧
  next_scene (obj (world s') r) = Some (PyObj r).
Proof.
  intros Hk H. split.
  - apply enter_spec in H as (_ & _ & loads & _ & _ & Hloaded).
    by apply Hloaded.
  - by apply (enter_next_scene classes r s).
Qed.

Lemma enter_postcondition_witness :
  let s' := snd (Scene.enter repo_classes 1%nat started) in
  assets_loaded (obj (world s') 1%nat) = true ∧
  next_scene (obj (world s') 1%nat) = Some (PyObj 1%nat).
Proof.
  apply (enter_postcondition repo_classes 1%nat started).
  - exact PlayScene1_load_assets_keeps_next_scene.
  - vm_compute. reflexivity.
Defined.

Lemma repo_load_assets_keeps_next_scene c :
  keeps_next_scene (c_load_assets (repo_classes c)).
Proof.
  unfold repo_classes. repeat case_decide; cbn.
  - apply PlayScene1_load_assets_keeps_next_scene.
  - apply EndScene_load_assets_keeps_next_scene.
  - apply Scene_load_assets_keeps_next_scene.
Qed.

Lemma repo_load_assets_returns c r w :
  fst (c_load_assets (repo_classes c) r w) = inr tt.
Proof. unfold repo_classes. by repeat case_decide. Qed.

(** For the scene classes at hand nothing is assumed: [enter()] always
    returns, with the assets loaded and [next_scene] reset. *)
Lemma repo_enter (r : ref) (s : Runtime) :
  fst (Scene.enter repo_classes r s) = inr tt ∧
  assets_loaded (obj (world (snd (Scene.enter repo_classes r s))) r) = true ∧
  next_scene (obj (world (snd (Scene.enter repo_classes r s))) r)
  = Some (PyObj r).
Proof.
  assert (Hr : fst (Scene.enter repo_classes r s) = inr tt).
  { destruct s as [w a p l]. eff. rewrite obj_insert_eq. cbn.
    destruct (assets_loaded (obj w r)); cbn; [done|].
    rewrite ?obj_insert_eq. cbn.
    match goal with |- context [c_load_assets ?c r ?w1] =>
      pose proof (repo_load_assets_returns (cls (obj w r)) r w1) as Hn;
      destruct (c_load_assets c r w1) as [[e|[]] w2]
    end; by cbn in *. }
  split; [done|].
  destruct (Scene.enter repo_classes r s) as [res s'] eqn:E. cbn in *. subst res.
  split.
  - apply enter_spec in E as (_ & _ & loads & _ & _ & Hloaded). by apply Hloaded.
  - apply (enter_next_scene repo_classes r s); [|done].
    apply repo_load_assets_keeps_next_scene.
Qed.

(** The [render] of the scene classes at hand leaves the scene objects as
    they are, so for them the state after [update] is the state in which
    the frame checks for a scene change. *)
Lemma repo_render_keeps_world c r w :
  snd (c_render (repo_classes c) r w) = w.
Proof.
  unfold repo_classes. repeat case_decide; cbn; try done.
  all: unfold PlayScene1.render, EndScene.render, getattr_opt, mbind, Eff_bind;
    by destruct (font_xl (obj w r)).
Qed.

(** *** Eager loading *)

(** With [delay_asset_loading] left at its default, [__init__] calls
    nothing: [load_assets] waits for [enter]. *)
Lemma init_lazy_calls_nothing classes r (kwargs : gmap string bool) s :
  default true (kwargs !! "delay_asset_loading") = true →
  fst (Scene.__init__ classes r kwargs s) = inr tt ∧
  log (snd (Scene.__init__ classes r kwargs s)) = log s.
Proof.
  intros Hd. unfold Scene.__init__. rewrite Hd.
  generalize (default true (kwargs !! "cleanup_on_terminate")); intros c.
  destruct s as [w a p l]. eff.
  rewrite !obj_insert_eq. by cbn.
Qed.

(** C2. A PlayScene1 built with [delay_asset_loading=False] has
    [load_assets()] called at construction, is left with
    [assets_loaded == False], and has [load_assets()] called a second time
    by its first [enter()]. *)
Theorem eager_scene_loads_twice :
  let s := snd (Game.construct repo_classes "PlayScene1"
                  {["delay_asset_loading" := false]} boot) in
  log s = [Call Self 0%nat load_assets_] ∧
  assets_loaded (obj (world s) 0%nat) = false ∧
  log (snd (eager_play1 boot))
  = [Call Self 0%nat load_assets_;
     Call Driver 0%nat enter_;
     Call Self 0%nat load_assets_].
Proof. vm_compute. auto. Qed.

(** The same happens to the title scene in [Game.__init__]. *)
Lemma started_log :
  log started
  = [Call Self 0%nat load_assets_;
     Call Self 3%nat load_assets_;
     Call Driver 0%nat enter_;
     Call Self 0%nat load_assets_].
Proof. vm_compute. reflexivity. Qed.

(** *** Cleanup and reloading *)

Lemma enter_loads_when_not_loaded classes by_ r s :
  assets_loaded (obj (world s) r) = false →
  log (snd (Scene.call_enter classes by_ r s))
  = (log s ++ [Call by_ r enter_; Call Self r load_assets_])%list.
Proof.
  intros Hl. destruct s as [w a p l]. eff. rewrite obj_insert_eq. cbn.
  cbn in Hl. rewrite Hl. cbn.
  destruct (c_load_assets _ _ _) as [[e|[]] w1]; cbn; by rewrite <- app_assoc.
Qed.

(** C9, as the code has it.  For a scene whose class has the [cleanup] of
    PlayScene1 or of EndScene, [cleanup()] returns with
    [assets_loaded == False], and the next [enter()] calls
    [load_assets()] again. *)
Theorem cleanup_forces_reload classes by_ by' (r : ref) (s : Runtime) :
  c_cleanup (classes (cls (obj (world s) r))) = PlayScene1.cleanup ∨
  c_cleanup (classes (cls (obj (world s) r))) = EndScene.cleanup →
  let s1 := snd (Scene.call_cleanup classes by_ r s) in
  fst (Scene.call_cleanup classes by_ r s) = inr tt ∧
  assets_loaded (obj (world s1) r) = false ∧
  log (snd (Scene.call_enter classes by' r s1))
  = (log s1 ++ [Call by' r enter_; Call Self r load_assets_])%list.
Proof.
  intros Hc.
  assert (Hc' : c_cleanup (classes (cls (obj (world s) r))) = PlayScene1.cleanup)
    by (by destruct Hc).
  cbv zeta.
  assert (Hl : assets_loaded
                 (obj (world (snd (Scene.call_cleanup classes by_ r s))) r) = false).
  { destruct s as [w a p l]. eff. cbn in Hc'. rewrite Hc'.
    unfold PlayScene1.cleanup. eff. by rewrite !obj_insert_eq. }
  split; [|split; [done|by apply enter_loads_when_not_loaded]].
  destruct s as [w a p l]. eff. cbn in Hc'. rewrite Hc'.
  unfold PlayScene1.cleanup. by eff.
Qed.

Lemma cleanup_forces_reload_witness :
  let s1 := snd (Scene.call_cleanup repo_classes Driver 1%nat in_play1) in
  fst (Scene.call_cleanup repo_classes Driver 1%nat in_play1) = inr tt ∧
  assets_loaded (obj (world s1) 1%nat) = false ∧
  log (snd (Scene.call_enter repo_classes Driver 1%nat s1))
  = (log s1 ++ [Call Driver 1%nat enter_; Call Self 1%nat load_assets_])%list.
Proof.
  apply (cleanup_forces_reload repo_classes Driver Driver 1%nat in_play1).
  left. reflexivity.
Defined.

(** C9, as stated, fails for a scene that inherits [Scene.cleanup]: after
    [cleanup()] returns, [assets_loaded] is still [True], and the next
    [enter()] does not call [load_assets()]. *)
Lemma inherited_cleanup_keeps_assets_loaded :
  let s1 := snd (Scene.call_cleanup repo_classes Driver 0%nat plain_scene) in
  assets_loaded (obj (world plain_scene) 0%nat) = true ∧
  fst (Scene.call_cleanup repo_classes Driver 0%nat plain_scene) = inr tt ∧
  assets_loaded (obj (world s1) 0%nat) ≠ false ∧
  calls_since s1 (snd (Scene.call_enter repo_classes Driver 0%nat s1))
  = [Call Driver 0%nat enter_].
Proof. vm_compute. repeat split; discriminate. Qed.

(** *** The driver *)

(** Unfolds the driver down to the calls it makes on scenes. *)
Ltac effd :=
  unfold Game.frame, Game.check_for_scene_change, Game.manage_scene,
         Game.update_and_tick, Game.on,
         record, when, set_active_scene, set_previous_scene,
         lift, getattr, getattr_opt, raise,
         mbind, Eff_bind, mret, Eff_ret, gets, modify;
  cbn.

Lemma is_not_obj r n : is_not (PyObj r) (PyObj n) = bool_decide (r ≠ n).
Proof. unfold is_not. apply bool_decide_ext. split; congruence. Qed.

Section driver_facts.

Variable classes : string → SceneClass.

Lemma check_same s r :
  active_scene s = PyObj r →
  next_scene (obj (world s) r) = Some (PyObj r) →
  Game.check_for_scene_change classes s = (inr tt, s).
Proof.
  destruct s as [w a p l]; cbn. intros -> Hn.
  effd. rewrite Hn. cbn. rewrite is_not_obj, bool_decide_false by auto. done.
Qed.

Lemma check_spec s r res s' :
  active_scene s = PyObj r →
  Game.check_for_scene_change classes s = (res, s') →
  ∃ d, log s' = (log s ++ d)%list ∧ forallb is_transition d = true.
Proof.
  destruct s as [w a p l]; cbn. intros ->.
  effd. destruct (next_scene (obj w r)) as [v|]; cbn.
  2:{ intros [= <- <-]. exists []. by rewrite app_nil_r. }
  destruct (is_not (PyObj r) v); cbn.
  2:{ intros [= <- <-]. exists []. by rewrite app_nil_r. }
  unfold Scene.call_exit, Scene.exit. effd.
  assert (Hen : ∀ s1 d1, log s1 = (l ++ d1)%list →
     forallb is_transition d1 = true →
     match v with
     | PyObj r0 => Scene.call_enter classes Driver r0
     | PyNone => λ s, (inl AttributeError, s)
     end s1 = (res, s') →
     ∃ d, log s' = (l ++ d)%list ∧ forallb is_transition d = true).
  { intros s1 d1 Hl Hd. destruct v as [|n].
    - intros [= <- <-]. eauto.
    - intros H. apply call_enter_spec in H as (_ & _ & loads & Hl' & Hs).
      exists (d1 ++ Call Driver n enter_ :: loads)%list. split.
      + by rewrite Hl', Hl, <- app_assoc.
      + rewrite forallb_app, Hd. by destruct Hs as [-> | ->]. }
  destruct (terminated (obj w r)); cbn.
  - destruct (Scene.call_cleanup _ _ _ _) as [[e|[]] s1] eqn:E;
    apply call_cleanup_spec in E as (Ha & Hp & Hl & _); cbn in *.
    + intros [= <- <-]. exists [Call Driver r exit_; Call Driver r cleanup_].
      split; [by rewrite Hl, <- app_assoc | done].
    + rewrite Ha.
      apply (Hen s1 [Call Driver r exit_; Call Driver r cleanup_]); try done.
      by rewrite Hl, <- app_assoc.
  - apply (Hen _ [Call Driver r exit_]); done.
Qed.

(** The three calls of [# Manage scene], cut short by the first one that
    raises. *)
Lemma manage_scene_spec filtered keys s r res s' :
  active_scene s = PyObj r →
  Game.manage_scene classes filtered keys s = (res, s') →
  active_scene s' = PyObj r ∧ previous_scene s' = previous_scene s ∧
  ∃ d, log s' = (log s ++ d)%list ∧
       match res with
       | inr _ => d = managed r filtered
       | inl _ => d = take 1 (managed r filtered)
                  ∨ d = take 2 (managed r filtered)
                  ∨ d = managed r filtered
       end.
Proof.
  destruct s as [w a p l]; simpl. intros ->.
  eff.
  destruct (c_process_input _ _ _ _ _) as [[e|[]] w1]; cbn.
  { intros [= <- <-]; cbn. repeat split. eexists; split; [done|]. by left. }
  destruct (c_update _ _ _) as [[e|[]] w2]; cbn.
  { intros [= <- <-]; cbn. repeat split.
    eexists; split; [by rewrite <- app_assoc|]. right; by left. }
  destruct (c_render _ _ _) as [[e|[]] w3]; cbn.
  all: intros [= <- <-]; cbn; repeat split; eexists;
    (split; [by rewrite <- !app_assoc|]); auto.
Qed.

Lemma frame_unfold keys events running :
  Game.frame classes keys events running
  = (Game.manage_scene classes (List.filter (non_quit keys) events) keys;;
     Game.check_for_scene_change classes;;
     Game.update_and_tick;;
     mret (running && forallb (non_quit keys) events)).
Proof. unfold Game.frame. by rewrite get_user_input_spec. Qed.

Lemma update_and_tick_run s :
  Game.update_and_tick s
  = (inr tt, mkRuntime (world s) (active_scene s) (previous_scene s)
                       (log s ++ [display_flip; clock_tick])).
Proof. effd. by rewrite <- app_assoc. Qed.

(** The shape of the log of one frame. *)
Lemma frame_spec keys events running s r res s' :
  active_scene s = PyObj r →
  Game.frame classes keys events running s = (res, s') →
  ∃ d1 d2 d3,
    log s' = (log s ++ d1 ++ d2 ++ d3)%list ∧
    (d1 = take 1 (managed r (List.filter (non_quit keys) events))
     ∨ d1 = take 2 (managed r (List.filter (non_quit keys) events))
     ∨ d1 = managed r (List.filter (non_quit keys) events)) ∧
    forallb is_transition d2 = true ∧
    match res with
    | inr b => b = running && forallb (non_quit keys) events ∧
               d1 = managed r (List.filter (non_quit keys) events) ∧
               d3 = [display_flip; clock_tick]
    | inl _ => d3 = []
    end.
Proof.
  intros Ha. rewrite frame_unfold.
  unfold mbind at 1, Eff_bind at 1.
  destruct (Game.manage_scene _ _ _ _) as [[e|[]] s1] eqn:E1;
    apply (manage_scene_spec _ _ _ r) in E1 as (Ha1 & _ & d1 & Hl1 & Hd1); try done.
  { intros [= <- <-]. exists d1, [], []. by rewrite !app_nil_r. }
  unfold mbind at 1, Eff_bind at 1.
  destruct (Game.check_for_scene_change _ _) as [[e|[]] s2] eqn:E2;
    apply (check_spec _ r) in E2 as (d2 & Hl2 & Hd2); try done.
  { intros [= <- <-]. exists d1, d2, []. rewrite Hl2, Hl1, app_nil_r, <- app_assoc.
    repeat split; auto. }
  unfold mbind at 1, Eff_bind at 1. rewrite update_and_tick_run.
  intros [= <- <-]. cbn. exists d1, d2, [display_flip; clock_tick].
  rewrite Hl2, Hl1, <- !app_assoc. repeat split; auto.
Qed.

(** Every frame calls [process_input] once, first, with the pending
    events minus the quit signals. *)
Lemma frame_calls_process_input keys events running s r :
  active_scene s = PyObj r →
  ∃ rest,
    log (snd (Game.frame classes keys events running s))
    = (log s ++ Call Driver r (process_input_ (List.filter (non_quit keys) events))
         :: rest)%list ∧
    existsb is_process_input rest = false.
Proof.
  intros Ha.
  destruct (Game.frame _ _ _ _ _) as [res s'] eqn:E.
  apply (frame_spec _ _ _ _ r) in E as (d1 & d2 & d3 & Hl & Hd1 & Hd2 & Hd3); [|done].
  assert (Hd3' : existsb is_process_input d3 = false).
  { destruct res as [e|b]; [by subst|]. by destruct Hd3 as (_ & _ & ->). }
  assert (Hd2' : existsb is_process_input d2 = false).
  { clear -Hd2. induction d2 as [|x d2 IH]; [done|]. cbn in *.
    apply andb_true_iff in Hd2 as [Hx Hd2]. rewrite (IH Hd2), orb_false_r.
    by destruct x as [? ? []| | |]. }
  cbn. rewrite Hl.
  destruct Hd1 as [-> | [-> | ->]]; cbn; eexists; (split; [done|]); cbn;
    by rewrite ?existsb_app, Hd2', Hd3'.
Qed.

(** A frame in which a quit signal is seen ends with [running] false. *)
Lemma loop_after_quit keys events rest s :
  existsb (λ e, Game.is_quit_event e keys) events = true →
  Game.loop classes ((keys, events) :: rest) true s
  = (Game.frame classes keys events true;;
     record pygame_quit;; mret Returned) s.
Proof.
  intros Hq.
  assert (Hf : forallb (non_quit keys) events = false).
  { clear -Hq. induction events as [|e events IH]; [done|]. cbn in *.
    destruct (Game.is_quit_event e keys); cbn in *; auto. }
  cbn [Game.loop]. rewrite frame_unfold, Hf. cbn.
  unfold mbind, Eff_bind, mret, Eff_ret.
  destruct (Game.manage_scene _ _ _ _) as [[e|[]] s1]; [done|].
  destruct (Game.check_for_scene_change _ _) as [[e|[]] s2]; [done|].
  destruct (Game.update_and_tick _) as [[e|[]] s3]; [done|].
  destruct rest as [|[??]?]; done.
Qed.

End driver_facts.

(** *** The prototype driver *)

Module prototype_facts.

Import scene_manager.

Ltac effp :=
  unfold MyGame.frame, MyGame.game_logic, MyGame.advance, MyGame.update_and_tick,
         scene_manager.on, terminate, update, render,
         scene_manager.set_next_scene, scene_manager.set_active_scene,
         print, scene_manager.record, when, raise,
         mbind, Eff_bind, mret, Eff_ret, gets, modify;
  cbn.

Lemma same_driver_refl s : same_driver s s.
Proof. done. Qed.

Lemma same_driver_trans s1 s2 s3 :
  same_driver s1 s2 → same_driver s2 s3 → same_driver s1 s3.
Proof. intros [??] [??]. split; congruence. Qed.

Lemma for_same_driver {A} (l : list A) (body : A → Eff scene_manager.Runtime unit) :
  (∀ x s res s', body x s = (res, s') → same_driver s s') →
  ∀ s res s', for_ l body s = (res, s') → same_driver s s'.
Proof.
  intros Hb. induction l as [|x l IH]; intros s res s'; cbn.
  - intros [= <- <-]. apply same_driver_refl.
  - unfold mbind, Eff_bind. destruct (body x s) as [[e|[]] s1] eqn:E.
    + intros [= <- <-]. by eapply Hb.
    + intros H. eapply same_driver_trans; [by eapply Hb | by eapply IH].
Qed.

Lemma construct_same_driver c s res s' :
  construct c s = (res, s') → same_driver s s'.
Proof.
  destruct s as [m a o l].
  unfold construct, Scene__init__, scene_manager.set_next_scene, print.
  cbv [mbind Eff_bind mret Eff_ret gets modify
       scene_manager.objs scene_manager.active_scene scene_manager.stdout
       scene_manager.log].
  destruct c; intros [= <- <-]; done.
Qed.

Lemma new_scene_same_driver c self s res s' :
  (n ← construct c; scene_manager.set_next_scene self (PyObj n)) s = (res, s') →
  same_driver s s'.
Proof.
  unfold mbind, Eff_bind.
  destruct (construct c s) as [[e|n] s1] eqn:E; apply construct_same_driver in E.
  - by intros [= <- <-].
  - intros [= <- <-]. by destruct E.
Qed.

Lemma print_same_driver line s : same_driver s (snd (print line s)).
Proof. done. Qed.

Lemma process_input_same_driver r events keys s res s' :
  process_input r events keys s = (res, s') → same_driver s s'.
Proof.
  unfold process_input. unfold mbind at 1, Eff_bind at 1, gets at 1.
  destruct (cls (scene_manager.obj s r)).
  - intros [= <- <-]. apply same_driver_refl.
  - apply for_same_driver. intros event s0 res0 s0'.
    destruct (type event =? KEYDOWN); cbn; [|by intros [= <- <-]].
    unfold mbind at 1, Eff_bind at 1. cbn.
    destruct (key event =? K_SPACE); cbn; [|by intros [= <- <-]].
    unfold mbind at 1, Eff_bind at 1. cbn.
    intros H. apply new_scene_same_driver in H. by destruct H.
  - apply for_same_driver. intros event s0 res0 s0'.
    destruct (type event =? KEYDOWN); cbn; [|by intros [= <- <-]].
    destruct (key event =? K_SPACE); cbn; [|by intros [= <- <-]].
    apply new_scene_same_driver.
  - apply for_same_driver. intros event s0 res0 s0'.
    destruct (type event =? KEYDOWN); cbn; [|by intros [= <- <-]].
    unfold mbind at 1, Eff_bind at 1. cbn.
    destruct (key event =? K_SPACE); cbn; [|by intros [= <- <-]].
    unfold mbind at 1, Eff_bind at 1. cbn.
    intros H. apply new_scene_same_driver in H. by destruct H.
Qed.

(** The [for] loop of the prototype: every quit signal calls
    [terminate()] on the active scene, everything else is collected. *)
Lemma event_handling_spec keys events acc s r :
  scene_manager.active_scene s = PyObj r →
  ∃ s1 k,
    MyGame.event_handling keys events acc s
    = (inr (acc ++ List.filter (λ e, negb (MyGame.is_quit_event e keys)) events)%list,
       s1) ∧
    scene_manager.active_scene s1 = PyObj r ∧
    scene_manager.log s1
    = (scene_manager.log s ++ replicate k (Call Driver r terminate_))%list ∧
    (existsb (λ e, MyGame.is_quit_event e keys) events = true →
     scene_manager.next_scene (scene_manager.obj s1 r) = PyNone) ∧
    (existsb (λ e, MyGame.is_quit_event e keys) events = false → s1 = s).
Proof.
  revert acc s. induction events as [|e events IH]; intros acc s Ha; cbn.
  - exists s, 0%nat. cbn. rewrite !app_nil_r. repeat split; done.
  - destruct (MyGame.is_quit_event e keys) eqn:Hq; cbn.
    + unfold mbind at 1, Eff_bind at 1, gets at 1. rewrite Ha. cbn.
      unfold mbind at 1, Eff_bind at 1. cbn.
      unfold mbind at 1, Eff_bind at 1. cbn.
      match goal with |- context [MyGame.event_handling keys events acc ?s2] =>
        destruct (IH acc s2) as (s1 & k & E & Ha1 & Hl1 & Hn1 & Hs1); [done|]
      end.
      exists s1, (S k). rewrite E. repeat split; try done.
      * rewrite Hl1. cbn. by rewrite <- app_assoc.
      * intros _. destruct (existsb _ events) eqn:Hx; [by apply Hn1|].
        rewrite (Hs1 eq_refl). unfold scene_manager.obj. cbn.
        by rewrite lookup_total_insert_eq.
    + destruct (IH (acc ++ [e])%list s Ha) as (s1 & k & E & Ha1 & Hl1 & Hn1 & Hs1).
      exists s1, k. rewrite E, <- app_assoc. repeat split; done.
Qed.

Lemma game_logic_spec filtered keys s r res s' :
  scene_manager.active_scene s = PyObj r →
  MyGame.game_logic filtered keys s = (res, s') →
  scene_manager.active_scene s' = PyObj r ∧
  ∃ d, scene_manager.log s' = (scene_manager.log s ++ d)%list ∧
       match res with
       | inr _ => d = managed r filtered
       | inl _ => d = take 1 (managed r filtered)
                  ∨ d = take 2 (managed r filtered)
                  ∨ d = managed r filtered
       end.
Proof.
  destruct s as [m a o l]; cbn. intros ->.
  unfold MyGame.game_logic.
  unfold mbind at 1, Eff_bind at 1, gets at 1. cbn.
  unfold mbind at 1, Eff_bind at 1.
  unfold mbind at 1, Eff_bind at 1. cbn.
  destruct (process_input _ _ _ _) as [[e|[]] s1] eqn:E1;
    apply process_input_same_driver in E1 as [Ha1 Hl1]; cbn in *.
  { intros [= <- <-]. split; [done|]. eexists. split; [done|]. by left. }
  unfold mbind at 1, Eff_bind at 1, gets at 1. cbn. rewrite Ha1. cbn.
  unfold mbind at 1, Eff_bind at 1.
  unfold mbind at 1, Eff_bind at 1. cbn.
  unfold update at 1. unfold mbind at 1, Eff_bind at 1, gets at 1. cbn.
  destruct s1 as [m1 a1 o1 l1]. cbn in *. subst a1 l1.
  destruct (cls _); cbn.
  1: { intros [= <- <-]. split; [done|]. eexists.
       split; [by rewrite <- app_assoc|]. right; by left. }
  all: unfold mbind at 1, Eff_bind at 1, gets at 1; cbn;
       unfold mbind at 1, Eff_bind at 1; cbn;
       unfold render at 1; unfold mbind at 1, Eff_bind at 1, gets at 1; cbn;
       destruct (cls _); cbn; intros [= <- <-]; (split; [done|]); eexists;
       (split; [by rewrite <- !app_assoc|]); auto.
Qed.

Lemma advance_run s r :
  scene_manager.active_scene s = PyObj r →
  MyGame.advance s
  = (inr tt, scene_manager.mkRuntime (scene_manager.objs s)
               (scene_manager.next_scene (scene_manager.obj s r))
               (scene_manager.stdout s) (scene_manager.log s)).
Proof. intros Ha. unfold MyGame.advance. effp. rewrite Ha. by cbn. Qed.

Lemma prototype_update_and_tick_run s :
  MyGame.update_and_tick s
  = (inr tt, scene_manager.mkRuntime (scene_manager.objs s)
               (scene_manager.active_scene s) (scene_manager.stdout s)
               (scene_manager.log s ++ [display_flip; clock_tick])).
Proof. effp. by rewrite <- app_assoc. Qed.

(** Every frame of the prototype calls [process_input] once, after the
    [terminate()] calls of the event loop, with the pending events minus
    the quit signals. *)
Lemma prototype_frame_calls_process_input keys events s r :
  scene_manager.active_scene s = PyObj r →
  ∃ k rest,
    scene_manager.log (snd (MyGame.frame keys events s))
    = (scene_manager.log s ++ replicate k (Call Driver r terminate_)
         ++ Call Driver r (process_input_
              (List.filter (λ e, negb (MyGame.is_quit_event e keys)) events))
         :: rest)%list ∧
    existsb is_process_input rest = false.
Proof.
  intros Ha. unfold MyGame.frame.
  destruct (event_handling_spec keys events [] s r Ha)
    as (s0 & k & E0 & Ha0 & Hl0 & _ & _). cbn in E0.
  rewrite bind_run, E0. cbv beta iota.
  rewrite bind_run.
  destruct (MyGame.game_logic _ _ _) as [[e|[]] s1] eqn:E1;
    apply (game_logic_spec _ _ _ r) in E1 as (Ha1 & d & Hl1 & Hd); try done.
  { cbn. exists k. rewrite Hl1, Hl0, <- app_assoc.
    destruct Hd as [-> | [-> | ->]]; cbn; by eexists. }
  rewrite bind_run. rewrite (advance_run _ r Ha1).
  rewrite prototype_update_and_tick_run. cbn.
  exists k. rewrite Hl1, Hl0, Hd, <- !app_assoc. cbn. by eexists.
Qed.

(** When the game logic of a frame leaves the active scene with
    [next_scene] [None], the loop of the prototype ends with that frame. *)
Lemma prototype_exits_on_none keys events rest s r filtered s0 s1 :
  scene_manager.active_scene s = PyObj r →
  MyGame.event_handling keys events [] s = (inr filtered, s0) →
  MyGame.game_logic filtered keys s0 = (inr tt, s1) →
  scene_manager.next_scene (scene_manager.obj s1 r) = PyNone →
  MyGame.run ((keys, events) :: rest) s
  = (inr Returned,
     scene_manager.mkRuntime (scene_manager.objs s1) PyNone
       (scene_manager.stdout s1)
       (scene_manager.log s1 ++ [display_flip; clock_tick])).
Proof.
  intros Ha E0 E1 Hn.
  destruct (event_handling_spec keys events [] s r Ha)
    as (s0' & k & E0' & Ha0 & _). rewrite E0 in E0'. injection E0' as _ <-.
  pose proof (game_logic_spec _ _ _ r _ _ Ha0 E1) as (Ha1 & _).
  cbn [MyGame.run]. rewrite bind_run; unfold gets at 1. cbv beta iota.
  rewrite Ha. cbn [bool_decide decide_rel].
  change (bool_decide (PyObj r ≠ PyNone)) with true. cbv beta iota.
  unfold MyGame.frame.
  rewrite !bind_run, E0. cbv beta iota.
  rewrite !bind_run, E1. cbv beta iota.
  rewrite !bind_run, (advance_run _ r Ha1), Hn. cbv beta iota.
  rewrite prototype_update_and_tick_run. cbv beta iota.
  by destruct rest as [|[??]?].
Qed.

End prototype_facts.

(** *** The transition protocol *)

Section transition.

Variable classes : string → SceneClass.

(** [enter] raises only out of [load_assets]. *)
Lemma call_enter_raises by_ (r : ref) (s s' : Runtime) e :
  Scene.call_enter classes by_ r s = (inl e, s') →
  log s' = (log s ++ [Call by_ r enter_; Call Self r load_assets_])%list.
Proof.
  destruct s as [w a p l]. eff. rewrite obj_insert_eq. cbn.
  destruct (assets_loaded (obj w r)); cbn; [done|].
  destruct (c_load_assets _ _ _) as [[e'|[]] w1]; cbn; [|done].
  intros [= _ <-]. cbn. by rewrite <- app_assoc.
Qed.

(** C6. On a transition to a different scene [n], the driver sets the
    active scene to [n] and [previous_scene] to the outgoing scene first,
    and only then calls [exit()] on the outgoing scene, [cleanup()] on it
    if it is terminated, and [enter()] on [n] last; the one other call
    that can occur is the [load_assets()] that [enter()] makes itself.
    So the active scene is [n] however the transition ends: when it is
    cut short by an exception out of [cleanup()], [enter()] has not been
    called and [n] is the active scene all the same. *)
Theorem transition_call_sequence (s s' : Runtime) (r n : ref) (res : exn + unit) :
  active_scene s = PyObj r →
  next_scene (obj (world s) r) = Some (PyObj n) →
  n ≠ r →
  Game.check_for_scene_change classes s = (res, s') →
  active_scene s' = PyObj n ∧
  previous_scene s' = Some (PyObj r) ∧
  ∃ d,
    log s' = (log s ++ [Call Driver r exit_]
                ++ (if terminated (obj (world s) r)
                    then [Call Driver r cleanup_] else [])
                ++ d)%list ∧
    match res with
    | inr _ =>
        ∃ loads, d = Call Driver n enter_ :: loads ∧
                 (loads = [] ∨ loads = [Call Self n load_assets_])
    | inl _ =>
        d = [] ∧ terminated (obj (world s) r) = true
        ∨ d = [Call Driver n enter_; Call Self n load_assets_]
    end.
Proof.
  destruct s as [w a p l]; cbn. intros -> Hn Hne.
  effd. rewrite Hn. cbn. rewrite is_not_obj, bool_decide_true by done. cbn.
  unfold Scene.call_exit, Scene.exit. effd.
  assert (Hen : ∀ s1 pre,
    active_scene s1 = PyObj n → previous_scene s1 = Some (PyObj r) →
    log s1 = (l ++ [Call Driver r exit_] ++ pre)%list →
    Scene.call_enter classes Driver n s1 = (res, s') →
    active_scene s' = PyObj n ∧ previous_scene s' = Some (PyObj r) ∧
    ∃ d, log s' = (l ++ [Call Driver r exit_] ++ pre ++ d)%list ∧
      match res with
      | inr _ =>
          ∃ loads, d = Call Driver n enter_ :: loads ∧
                   (loads = [] ∨ loads = [Call Self n load_assets_])
      | inl _ =>
          d = [] ∧ terminated (obj w r) = true
          ∨ d = [Call Driver n enter_; Call Self n load_assets_]
      end).
  { intros s1 pre Ha1 Hp1 Hl1 H.
    pose proof (call_enter_spec classes _ _ _ _ _ H) as (Ha' & Hp' & loads & Hl' & Hs).
    split; [congruence|]. split; [congruence|].
    destruct res as [e|[]].
    - apply call_enter_raises in H.
      exists [Call Driver n enter_; Call Self n load_assets_]. split; [|by right].
      by rewrite H, Hl1, <- !app_assoc.
    - exists (Call Driver n enter_ :: loads). split; [|by exists loads].
      by rewrite Hl', Hl1, <- !app_assoc. }
  destruct (terminated (obj w r)) eqn:Ht; cbn.
  - destruct (Scene.call_cleanup _ _ _ _) as [[e|[]] s1] eqn:E;
      apply call_cleanup_spec in E as (Ha & Hp & Hl & _); cbn in *.
    + intros [= <- <-]. split; [done|]. split; [done|].
      exists []. split; [|by left]. by rewrite Hl, <- app_assoc.
    + rewrite Ha. intros H.
      apply (Hen s1 [Call Driver r cleanup_]); try done.
      by rewrite Hl, <- app_assoc.
  - intros H. apply (Hen _ []) in H; [done..|].
    by cbn.
Qed.

End transition.

Lemma transition_call_sequence_witness :
  let s' := snd (Game.check_for_scene_change repo_classes play1_right_pressed) in
  active_scene s' = PyObj 2%nat ∧
  previous_scene s' = Some (PyObj 1%nat) ∧
  ∃ d,
    log s' = (log play1_right_pressed ++ [Call Driver 1%nat exit_]
                ++ (if terminated (obj (world play1_right_pressed) 1%nat)
                    then [Call Driver 1%nat cleanup_] else [])
                ++ d)%list ∧
    ∃ loads, d = Call Driver 2%nat enter_ :: loads ∧
             (loads = [] ∨ loads = [Call Self 2%nat load_assets_]).
Proof.
  apply (transition_call_sequence repo_classes play1_right_pressed _ 1%nat 2%nat
           (inr tt)).
  - vm_compute. reflexivity.
  - vm_compute. reflexivity.
  - lia.
  - vm_compute. reflexivity.
Defined.

(** The order in which the description puts the assignment does not hold:
    when [cleanup()] of the outgoing scene raises, the calls made are the
    same in both orders ([exit], [cleanup], no [enter]), but the code has
    made the successor the active scene by then, and the order of the
    description would have left the outgoing scene active. *)
Lemma active_scene_is_assigned_before_exit :
  let s := fragile_leaving in
  let code := Game.check_for_scene_change fragile_classes s in
  let described := transition_as_described fragile_classes 0%nat 1%nat s in
  active_scene s = PyObj 0%nat ∧
  next_scene (obj (world s) 0%nat) = Some (PyObj 1%nat) ∧
  fst code = inl KeyError ∧
  fst described = inl KeyError ∧
  calls_since s (snd code) = [Call Driver 0%nat exit_; Call Driver 0%nat cleanup_] ∧
  calls_since s (snd described) = [Call Driver 0%nat exit_; Call Driver 0%nat cleanup_] ∧
  active_scene (snd code) = PyObj 1%nat ∧
  active_scene (snd described) = PyObj 0%nat.
Proof. vm_compute. repeat split; reflexivity. Qed.

(** C8. If, when the frame reaches its check for a scene change (that is,
    after [process_input], [update] and [render] have returned), the
    active scene's [next_scene] is the active scene itself, the check
    calls nothing and changes nothing: the frame consists of the three
    calls on the active scene, the flip and the tick, and the active
    scene stays. *)
Theorem no_transition_frame classes keys events running (s s1 : Runtime) (r : ref) :
  active_scene s = PyObj r →
  Game.manage_scene classes (snd (Game.get_user_input keys events running)) keys s
  = (inr tt, s1) →
  next_scene (obj (world s1) r) = Some (PyObj r) →
  Game.check_for_scene_change classes s1 = (inr tt, s1) ∧
  ∃ running' s',
    Game.frame classes keys events running s = (inr running', s') ∧
    active_scene s' = PyObj r ∧
    world s' = world s1 ∧
    previous_scene s' = previous_scene s ∧
    log s' = (log s ++ managed r (snd (Game.get_user_input keys events running))
                ++ [display_flip; clock_tick])%list.
Proof.
  intros Ha Hm Hn.
  pose proof (manage_scene_spec classes _ _ _ r _ _ Ha Hm) as (Ha1 & Hp1 & d & Hl1 & ->).
  pose proof (check_same classes s1 r Ha1 Hn) as Hc.
  split; [done|].
  rewrite get_user_input_spec in *. cbn [snd] in *.
  rewrite frame_unfold, !bind_run, Hm. cbv beta iota.
  rewrite !bind_run, Hc. cbv beta iota.
  rewrite !bind_run, update_and_tick_run. cbv beta iota.
  eexists _, _. split; [reflexivity|]. cbn.
  by rewrite Hl1, <- app_assoc.
Qed.

Lemma no_transition_frame_witness :
  let s1 := snd (Game.manage_scene repo_classes
                   (snd (Game.get_user_input no_keys [mkEvent KEYUP K_UP] true))
                   no_keys in_play1) in
  Game.check_for_scene_change repo_classes s1 = (inr tt, s1) ∧
  ∃ running' s',
    Game.frame repo_classes no_keys [mkEvent KEYUP K_UP] true in_play1
    = (inr running', s') ∧
    active_scene s' = PyObj 1%nat ∧
    world s' = world s1 ∧
    previous_scene s' = previous_scene in_play1 ∧
    log s' = (log in_play1
                ++ managed 1%nat
                     (snd (Game.get_user_input no_keys [mkEvent KEYUP K_UP] true))
                ++ [display_flip; clock_tick])%list.
Proof.
  apply (no_transition_frame repo_classes no_keys [mkEvent KEYUP K_UP] true
           in_play1 _ 1%nat); vm_compute; reflexivity.
Defined.

(** *** Quit signals *)

(** C7. In every frame, [process_input] is called once, and the list it
    is given is the pending events without the quit signals, in the order
    in which they arrived; this holds for [Game.run] and for the
    prototype's [MyGame.run]. *)
Theorem process_input_gets_the_non_quit_events
    (keys : ScancodeWrapper) (events : list Event) :
  (∀ e, In e (List.filter (non_quit keys) events)
        ↔ In e events ∧ Game.is_quit_event e keys = false) ∧
  (∀ classes running s r,
     active_scene s = PyObj r →
     ∃ rest,
       log (snd (Game.frame classes keys events running s))
       = (log s ++ Call Driver r (process_input_ (List.filter (non_quit keys) events))
            :: rest)%list ∧
       existsb is_process_input rest = false) ∧
  (∀ s r,
     scene_manager.active_scene s = PyObj r →
     ∃ k rest,
       scene_manager.log (snd (scene_manager.MyGame.frame keys events s))
       = (scene_manager.log s ++ replicate k (Call Driver r terminate_)
            ++ Call Driver r (process_input_
                 (List.filter
                    (λ e, negb (scene_manager.MyGame.is_quit_event e keys)) events))
            :: rest)%list ∧
       existsb is_process_input rest = false).
Proof.
  split; [|split].
  - intros e. rewrite filter_In, negb_true_iff. done.
  - intros classes running s r Ha. by apply frame_calls_process_input.
  - intros s r Ha. by apply prototype_facts.prototype_frame_calls_process_input.
Qed.

(** C10. While Ctrl (left or right) and Q are held, every event is
    classified as a quit signal whatever its type, [filtered_events]
    stays empty, and [process_input] is called with the empty list, both
    in [Game.run] and in the prototype. *)
Theorem ctrl_q_empties_the_event_list (keys : ScancodeWrapper) :
  (keys K_LCTRL || keys K_RCTRL) && keys K_q = true →
  (∀ event, Game.is_quit_event event keys = true) ∧
  (∀ events running, snd (Game.get_user_input keys events running) = []) ∧
  (∀ classes events running s r,
     active_scene s = PyObj r →
     ∃ rest,
       log (snd (Game.frame classes keys events running s))
       = (log s ++ Call Driver r (process_input_ []) :: rest)%list ∧
       existsb is_process_input rest = false) ∧
  (∀ event, scene_manager.MyGame.is_quit_event event keys = true) ∧
  (∀ events s r,
     scene_manager.active_scene s = PyObj r →
     ∃ k rest,
       scene_manager.log (snd (scene_manager.MyGame.frame keys events s))
       = (scene_manager.log s ++ replicate k (Call Driver r terminate_)
            ++ Call Driver r (process_input_ []) :: rest)%list ∧
       existsb is_process_input rest = false).
Proof.
  intros Hk. repeat split.
  - intros event. by apply is_quit_event_ctrl_q.
  - intros events running. rewrite get_user_input_spec. by apply filter_all_quit.
  - intros classes events running s r Ha.
    destruct (frame_calls_process_input classes keys events running s r Ha)
      as (rest & Hl & Hr).
    exists rest. by rewrite Hl, filter_all_quit.
  - intros event. by apply is_quit_event_ctrl_q.
  - intros events s r Ha.
    destruct (prototype_facts.prototype_frame_calls_process_input keys events s r Ha)
      as (k & rest & Hl & Hr).
    exists k, rest. split; [|done]. rewrite Hl.
    change (λ e, negb (scene_manager.MyGame.is_quit_event e keys))
      with (non_quit keys).
    by rewrite filter_all_quit.
Qed.

Lemma process_input_gets_the_non_quit_events_witness :
  let keys := no_keys in
  let events := [mkEvent KEYDOWN K_UP; mkEvent QUIT 0; mkEvent KEYUP K_UP] in
  (∃ rest,
     log (snd (Game.frame repo_classes keys events true in_play1))
     = (log in_play1
          ++ Call Driver 1%nat (process_input_ (List.filter (non_quit keys) events))
          :: rest)%list ∧
     existsb is_process_input rest = false) ∧
  (∃ k rest,
     scene_manager.log (snd (scene_manager.MyGame.frame keys events proto_title))
     = (scene_manager.log proto_title ++ replicate k (Call Driver 0%nat terminate_)
          ++ Call Driver 0%nat (process_input_
               (List.filter
                  (λ e, negb (scene_manager.MyGame.is_quit_event e keys)) events))
          :: rest)%list ∧
     existsb is_process_input rest = false).
Proof.
  cbv zeta. split.
  - apply (proj1 (proj2 (process_input_gets_the_non_quit_events no_keys _))
             repo_classes true in_play1 1%nat).
    vm_compute. reflexivity.
  - apply (proj2 (proj2 (process_input_gets_the_non_quit_events no_keys _))
             proto_title 0%nat).
    vm_compute. reflexivity.
Defined.

Lemma ctrl_q_empties_the_event_list_witness :
  (∃ rest,
     log (snd (Game.frame repo_classes ctrl_q [mkEvent KEYDOWN K_RIGHT] true
                 in_play1))
     = (log in_play1 ++ Call Driver 1%nat (process_input_ []) :: rest)%list ∧
     existsb is_process_input rest = false) ∧
  (∃ k rest,
     scene_manager.log
       (snd (scene_manager.MyGame.frame ctrl_q [mkEvent KEYDOWN K_SPACE]
               proto_title))
     = (scene_manager.log proto_title ++ replicate k (Call Driver 0%nat terminate_)
          ++ Call Driver 0%nat (process_input_ []) :: rest)%list ∧
     existsb is_process_input rest = false).
Proof.
  destruct (ctrl_q_empties_the_event_list ctrl_q eq_refl)
    as (_ & _ & Hgame & _ & Hproto).
  split; [apply Hgame | apply Hproto]; reflexivity.
Defined.

(** With Ctrl and Q held, a key press does not reach play scene 1. *)
Lemma ctrl_q_frame_in_play1 :
  calls_since in_play1
    (snd (Game.run repo_classes [(ctrl_q, [mkEvent KEYDOWN K_RIGHT])] in_play1))
  = [Call Driver 1%nat (process_input_ []);
     Call Driver 1%nat update_;
     Call Driver 1%nat render_;
     display_flip; clock_tick; pygame_quit].
Proof. vm_compute. reflexivity. Qed.

Section quit.

Variable classes : string → SceneClass.

Lemma manage_scene_none filtered keys s :
  active_scene s = PyNone →
  ∃ e, fst (Game.manage_scene classes filtered keys s) = inl e.
Proof.
  destruct s as [w a p l]; cbn. intros ->. effd. by eexists.
Qed.

(** C3, as the code has it.  When a quit signal is among the events of a
    frame of [Game.run], that frame is the last one.  The frame itself
    still runs to its end: [process_input] (with the filtered events),
    [update] and [render] are called on the active scene, once each, then
    comes the check for a scene change, the flip and the tick.  After it
    the loop is left and [pygame.quit()] is called, whatever input would
    follow. *)
Theorem quit_frame_is_the_last keys events rest (s s1 : Runtime) (running : bool) :
  existsb (λ e, Game.is_quit_event e keys) events = true →
  Game.frame classes keys events true s = (inr running, s1) →
  Game.run classes ((keys, events) :: rest) s
  = (inr Returned,
     mkRuntime (world s1) (active_scene s1) (previous_scene s1)
               (log s1 ++ [pygame_quit])) ∧
  ∃ r d,
    active_scene s = PyObj r ∧
    forallb is_transition d = true ∧
    log s1 = (log s ++ managed r (List.filter (non_quit keys) events) ++ d
                ++ [display_flip; clock_tick])%list.
Proof.
  intros Hq E. split.
  { unfold Game.run. rewrite (loop_after_quit classes) by done.
    by rewrite bind_run, E. }
  destruct (active_scene s) as [|r] eqn:Ha.
  { rewrite frame_unfold, bind_run in E.
    destruct (manage_scene_none (List.filter (non_quit keys) events) keys s Ha)
      as [e He].
    destruct (Game.manage_scene _ _ _ _) as [[?|[]] ?]; cbn in He; done. }
  pose proof (frame_spec classes _ _ _ _ r _ _ Ha E)
    as (d1 & d2 & d3 & Hl & _ & Hd2 & _ & Hd1 & Hd3).
  subst d1 d3. exists r, d2. repeat split; done.
Qed.

End quit.

Lemma quit_frame_is_the_last_witness :
  let events := [mkEvent KEYDOWN K_UP; mkEvent QUIT 0] in
  let s1 := snd (Game.frame repo_classes no_keys events true in_play1) in
  Game.run repo_classes
    [(no_keys, events); (no_keys, [mkEvent KEYDOWN K_RIGHT])] in_play1
  = (inr Returned,
     mkRuntime (world s1) (active_scene s1) (previous_scene s1)
               (log s1 ++ [pygame_quit])) ∧
  ∃ r d,
    active_scene in_play1 = PyObj r ∧
    forallb is_transition d = true ∧
    log s1 = (log in_play1 ++ managed r (List.filter (non_quit no_keys) events)
                ++ d ++ [display_flip; clock_tick])%list.
Proof.
  apply (quit_frame_is_the_last repo_classes no_keys
           [mkEvent KEYDOWN K_UP; mkEvent QUIT 0]
           [(no_keys, [mkEvent KEYDOWN K_RIGHT])] in_play1 _ false).
  - vm_compute. reflexivity.
  - vm_compute. reflexivity.
Defined.

(** C3, as stated, fails: in play scene 1, a frame whose only event is a
    window close still calls [update()] and [render()] on the scene after
    the quit signal has been seen. *)
Lemma quit_frame_still_updates_and_renders :
  let events := [mkEvent QUIT 0] in
  let s' := snd (Game.run repo_classes [(no_keys, events)] in_play1) in
  existsb (λ e, Game.is_quit_event e no_keys) events = true ∧
  calls_since in_play1 s'
  = [Call Driver 1%nat (process_input_ []);
     Call Driver 1%nat update_;
     Call Driver 1%nat render_;
     display_flip; clock_tick; pygame_quit] ∧
  existsb is_update_or_render (calls_since in_play1 s') ≠ false.
Proof. vm_compute. repeat split. discriminate. Qed.

(** In the prototype a window close followed, in the same frame, by a
    press of the space bar is lost: [terminate()] sets [next_scene] to
    [None], [process_input] then sets it to a new play scene, and the loop
    goes on. *)
Lemma prototype_quit_then_space_goes_on :
  let s' := snd (scene_manager.MyGame.run
                   [(no_keys, [mkEvent QUIT 0; mkEvent KEYDOWN K_SPACE])]
                   proto_title) in
  fst (scene_manager.MyGame.run
         [(no_keys, [mkEvent QUIT 0; mkEvent KEYDOWN K_SPACE])] proto_title)
  = inr Waiting ∧
  scene_manager.active_scene s' = PyObj 1%nat ∧
  scene_manager.stdout s' = ["title scene"; "down"; "space"; "play scene"].
Proof. vm_compute. auto. Qed.

(** *** An absent successor *)

(** C4, as the code has it.  In [Game.run], if the active scene's
    [next_scene] is [None] when the frame checks for a scene change, the
    check calls [exit()] on the scene, and [cleanup()] if it is
    terminated, and then raises: [AttributeError] from [None.enter()],
    unless [cleanup()] has raised before.  [run] ends with that
    exception, before the flip.  In the prototype, if the active scene's
    [next_scene] is [None] when the game logic of a frame is done,
    [MyGame.run] returns at the end of that frame. *)
Theorem absent_next_scene keys events rest :
  (∀ classes (s s1 : Runtime) (r : ref),
     active_scene s = PyObj r →
     Game.manage_scene classes (List.filter (non_quit keys) events) keys s
     = (inr tt, s1) →
     next_scene (obj (world s1) r) = Some PyNone →
     ∃ e s',
       Game.run classes ((keys, events) :: rest) s = (inl e, s') ∧
       (e = AttributeError ∨
        terminated (obj (world s1) r) = true ∧
        ∃ w', c_cleanup (classes (cls (obj (world s1) r))) r (world s1)
              = (inl e, w')) ∧
       log s' = (log s1 ++ Call Driver r exit_
                   :: (if terminated (obj (world s1) r)
                       then [Call Driver r cleanup_] else []))%list) ∧
  (∀ (s s0 s1 : scene_manager.Runtime) (r : ref) filtered,
     scene_manager.active_scene s = PyObj r →
     scene_manager.MyGame.event_handling keys events [] s = (inr filtered, s0) →
     scene_manager.MyGame.game_logic filtered keys s0 = (inr tt, s1) →
     scene_manager.next_scene (scene_manager.obj s1 r) = PyNone →
     scene_manager.MyGame.run ((keys, events) :: rest) s
     = (inr Returned,
        scene_manager.mkRuntime (scene_manager.objs s1) PyNone
          (scene_manager.stdout s1)
          (scene_manager.log s1 ++ [display_flip; clock_tick]))).
Proof.
  split.
  - intros classes s s1 r Ha Hm Hn.
    pose proof (manage_scene_spec classes _ _ _ r _ _ Ha Hm) as (Ha1 & _).
    assert (Hc : ∃ e s',
      Game.check_for_scene_change classes s1 = (inl e, s') ∧
      (e = AttributeError ∨
       terminated (obj (world s1) r) = true ∧
       ∃ w', c_cleanup (classes (cls (obj (world s1) r))) r (world s1)
             = (inl e, w')) ∧
      log s' = (log s1 ++ Call Driver r exit_
                  :: (if terminated (obj (world s1) r)
                      then [Call Driver r cleanup_] else []))%list).
    { clear Hm Ha. destruct s1 as [w a p l]; cbn in *. subst a.
      effd. rewrite Hn. cbn. change (is_not (PyObj r) PyNone) with true. cbn.
      unfold Scene.call_exit, Scene.exit. effd.
      destruct (terminated (obj w r)); cbn.
      - destruct (Scene.call_cleanup _ _ _ _) as [[e|[]] s2] eqn:E;
        apply call_cleanup_spec in E as (Ha & Hp & Hl & Hh); cbn in *.
        + eexists _, _. split; [done|]. split; [right; eauto|].
          by rewrite Hl, <- app_assoc.
        + rewrite Ha. eexists _, _. split; [done|]. split; [by left|].
          by rewrite Hl, <- app_assoc.
      - eexists _, _. split; [done|]. split; [by left|done]. }
    destruct Hc as (e & s' & Hc & He & Hl).
    exists e, s'. split; [|done].
    unfold Game.run. cbn [Game.loop].
    rewrite frame_unfold, !bind_run, Hm. cbv beta iota.
    by rewrite !bind_run, Hc.
  - intros s s0 s1 r filtered. apply prototype_facts.prototype_exits_on_none.
Qed.

Lemma absent_next_scene_witness :
  (let s1 := snd (Game.manage_scene repo_classes [] no_keys play1_nulled) in
   ∃ e s',
     Game.run repo_classes [(no_keys, [])] play1_nulled = (inl e, s') ∧
     (e = AttributeError ∨
      terminated (obj (world s1) 1%nat) = true ∧
      ∃ w', c_cleanup (repo_classes (cls (obj (world s1) 1%nat))) 1%nat (world s1)
            = (inl e, w')) ∧
     log s' = (log s1 ++ Call Driver 1%nat exit_
                 :: (if terminated (obj (world s1) 1%nat)
                     then [Call Driver 1%nat cleanup_] else []))%list) ∧
  (let s1 := snd (scene_manager.MyGame.game_logic [] no_keys
                    (snd (scene_manager.MyGame.event_handling no_keys
                            [mkEvent QUIT 0] [] proto_title))) in
   scene_manager.MyGame.run [(no_keys, [mkEvent QUIT 0]); (no_keys, [])] proto_title
   = (inr Returned,
      scene_manager.mkRuntime (scene_manager.objs s1) PyNone
        (scene_manager.stdout s1)
        (scene_manager.log s1 ++ [display_flip; clock_tick]))).
Proof.
  split.
  - apply (proj1 (absent_next_scene no_keys [] [])
             repo_classes play1_nulled
             (snd (Game.manage_scene repo_classes [] no_keys play1_nulled))
             1%nat); vm_compute; reflexivity.
  - apply (proj2 (absent_next_scene no_keys [mkEvent QUIT 0] [(no_keys, [])])
             proto_title
             (snd (scene_manager.MyGame.event_handling no_keys
                     [mkEvent QUIT 0] [] proto_title))
             (snd (scene_manager.MyGame.game_logic [] no_keys
                     (snd (scene_manager.MyGame.event_handling no_keys
                             [mkEvent QUIT 0] [] proto_title))))
             0%nat []); vm_compute; reflexivity.
Defined.

(** C4, as stated, fails for [Game.run]: with play scene 1 active and its
    [next_scene] set to [None], the frame reaches the check with
    [next_scene] still [None], and [run] does not return: it raises
    [AttributeError] after [exit()], without flip, tick or
    [pygame.quit()]. *)
Lemma absent_next_scene_raises_in_game :
  let at_check := snd (Game.manage_scene repo_classes [] no_keys play1_nulled) in
  let result := Game.run repo_classes [(no_keys, [])] play1_nulled in
  active_scene at_check = PyObj 1%nat ∧
  next_scene (obj (world at_check) 1%nat) = Some PyNone ∧
  fst result ≠ inr Returned ∧
  fst result = inl AttributeError ∧
  calls_since play1_nulled (snd result)
  = [Call Driver 1%nat (process_input_ []);
     Call Driver 1%nat update_;
     Call Driver 1%nat render_;
     Call Driver 1%nat exit_].
Proof. vm_compute. repeat split. discriminate. Qed.

(** *** Cleanup on transition *)

(** C1.  An end scene built with [cleanup_on_terminate=False] is active
    and the right arrow is pressed: the scene marks itself terminated and
    asks for the title scene.  The driver then calls [cleanup()] on it,
    right after [exit()], and never calls [terminate()]; the scene's font
    is gone and [assets_loaded] is [False] although [cleanup_on_terminate]
    is [False]. *)
Theorem cleanup_ignores_cleanup_on_terminate :
  let s' := snd (Game.run repo_classes [(no_keys, [mkEvent KEYDOWN K_RIGHT])]
                   keep_end) in
  active_scene keep_end = PyObj 1%nat ∧
  cls (obj (world keep_end) 1%nat) = "EndScene" ∧
  cleanup_on_terminate (obj (world keep_end) 1%nat) = false ∧
  calls_since keep_end s'
  = [Call Driver 1%nat (process_input_ [mkEvent KEYDOWN K_RIGHT]);
     Call Driver 1%nat update_;
     Call Driver 1%nat render_;
     Call Driver 1%nat exit_;
     Call Driver 1%nat cleanup_;
     Call Driver 0%nat enter_;
     Call Self 0%nat load_assets_;
     display_flip; clock_tick] ∧
  font_xl (obj (world s') 1%nat) = None ∧
  assets_loaded (obj (world s') 1%nat) = false.
Proof. vm_compute. repeat split. Qed.

(** The method that does consult [cleanup_on_terminate], had the driver
    called it instead: nothing is cleaned up. *)
Lemma terminate_respects_cleanup_on_terminate classes by_ r s :
  cleanup_on_terminate (obj (world s) r) = false →
  Scene.call_terminate classes by_ r s
  = (inr tt, mkRuntime (world s) (active_scene s) (previous_scene s)
                       (log s ++ [Call by_ r terminate_])).
Proof.
  intros Hc. destruct s as [w a p l]. cbn in *.
  unfold Scene.call_terminate, Scene.terminate. eff. rewrite Hc. by cbn.
Qed.

(** * Further properties *)


(** ** Further properties of the driver *)

Section more_driver_facts.

Variable classes : string → SceneClass.

Lemma frame_running_flag keys events running s b s' :
  Game.frame classes keys events running s = (inr b, s') →
  b = running && forallb (non_quit keys) events.
Proof.
  rewrite frame_unfold, bind_run.
  destruct (Game.manage_scene _ _ _ _) as [[e|[]] s1]; [done|].
  rewrite bind_run.
  destruct (Game.check_for_scene_change _ _) as [[e|[]] s2]; [done|].
  rewrite bind_run, update_and_tick_run. by intros [= <- <-].
Qed.

Lemma check_keeps_an_object s r s' :
  active_scene s = PyObj r →
  Game.check_for_scene_change classes s = (inr tt, s') →
  ∃ r', active_scene s' = PyObj r'.
Proof.
  destruct s as [w a p l]; cbn. intros ->.
  effd. destruct (next_scene (obj w r)) as [v|]; cbn; [|done].
  destruct (is_not (PyObj r) v) eqn:Hv; cbn.
  2:{ intros [= <-]. cbn. exists r.
      unfold is_not in Hv. apply bool_decide_eq_false in Hv.
      by destruct (decide (PyObj r = v)) as [<-|]. }
  unfold Scene.call_exit, Scene.exit. effd.
  assert (Hen : ∀ s1, active_scene s1 = v →
     match v with
     | PyObj r0 => Scene.call_enter classes Driver r0
     | PyNone => λ s, (inl AttributeError, s)
     end s1 = (inr tt, s') → ∃ r', active_scene s' = PyObj r').
  { intros s1 Ha. destruct v as [|n]; [done|].
    intros H. apply call_enter_spec in H as (Ha' & _). exists n. congruence. }
  destruct (terminated (obj w r)); cbn.
  - destruct (Scene.call_cleanup _ _ _ _) as [[e|[]] s1] eqn:E; [done|].
    apply call_cleanup_spec in E as (Ha & _). cbn in *.
    rewrite Ha. by apply Hen.
  - by apply Hen.
Qed.

Lemma frame_keeps_an_object keys events running s r b s' :
  active_scene s = PyObj r →
  Game.frame classes keys events running s = (inr b, s') →
  ∃ r', active_scene s' = PyObj r'.
Proof.
  intros Ha. rewrite frame_unfold, bind_run.
  destruct (Game.manage_scene _ _ _ _) as [[e|[]] s1] eqn:E1; [done|].
  apply (manage_scene_spec _ _ _ _ r) in E1 as (Ha1 & _); [|done].
  rewrite bind_run.
  destruct (Game.check_for_scene_change _ _) as [[e|[]] s2] eqn:E2; [done|].
  apply (check_keeps_an_object _ r) in E2 as [r' Hr']; [|done].
  rewrite bind_run, update_and_tick_run. intros [= <- <-]. by exists r'.
Qed.

(** X1. As long as [run] goes on without an exception, [active_scene]
    holds a scene, never [None]: through any number of frames, and when
    [run] returns.  This holds for every scene class whose methods leave
    the attributes of the game object alone; a [next_scene] of [None]
    makes the frame raise instead. *)
Theorem active_scene_is_never_none inputs (s s' : Runtime) (r : ref) (out : outcome) :
  active_scene s = PyObj r →
  Game.run classes inputs s = (inr out, s') →
  ∃ r', active_scene s' = PyObj r'.
Proof.
  unfold Game.run. generalize true as running.
  revert s r. induction inputs as [|[keys events] inputs IH]; intros s r running Ha.
  - destruct running; cbn.
    + intros [= <- <-]. by exists r.
    + effd. intros [= <- <-]. by exists r.
  - destruct running; cbn [Game.loop].
    + rewrite bind_run.
      destruct (Game.frame _ _ _ _ _) as [[e|b] s1] eqn:E; [done|].
      apply (frame_keeps_an_object _ _ _ _ r) in E as [r1 Hr1]; [|done].
      by apply (IH s1 r1).
    + effd. intros [= <- <-]. by exists r.
Qed.

(** X2. [run] returns only after a quit signal: if it has returned, one of
    the frames it went through had a quit signal among its events. *)
Theorem run_returns_only_after_a_quit_signal inputs (s s' : Runtime) :
  Game.run classes inputs s = (inr Returned, s') →
  ∃ keys events,
    In (keys, events) inputs ∧
    existsb (λ e, Game.is_quit_event e keys) events = true.
Proof.
  unfold Game.run.
  revert s. induction inputs as [|[keys events] inputs IH]; intros s; [done|].
  cbn [Game.loop]. rewrite bind_run.
  destruct (Game.frame _ _ _ _ _) as [[e|b] s1] eqn:E; [done|].
  apply frame_running_flag in E. cbn in E. subst b.
  destruct (forallb (non_quit keys) events) eqn:Hq.
  - intros H. destruct (IH _ H) as (k & ev & Hin & Hex).
    exists k, ev. split; [by right|done].
  - intros _. exists keys, events. split; [by left|].
    clear -Hq. induction events as [|e events IH]; [done|]. cbn in *.
    destruct (Game.is_quit_event e keys); cbn in *; auto.
Qed.

(** X3. In every frame that completes, [process_input], [update] and
    [render] are called once each, in this order, on the scene that was
    active when the frame began; the calls of a scene change, if any,
    come after them, so a scene entered in a frame is neither updated nor
    rendered in it; flip and tick close the frame.  [running] is still
    true afterwards exactly if it was and no event was a quit signal. *)
Theorem completed_frame keys events running (s s' : Runtime) (r : ref) (b : bool) :
  active_scene s = PyObj r →
  Game.frame classes keys events running s = (inr b, s') →
  b = running && forallb (non_quit keys) events ∧
  ∃ d,
    forallb is_transition d = true ∧
    log s' = (log s ++ managed r (List.filter (non_quit keys) events) ++ d
                ++ [display_flip; clock_tick])%list.
Proof.
  intros Ha E.
  pose proof (frame_spec classes _ _ _ _ r _ _ Ha E)
    as (d1 & d2 & d3 & Hl & _ & Hd2 & Hb & Hd1 & Hd3).
  subst d1 d3. split; [done|]. by exists d2.
Qed.

(** X4. When the class of the active scene does not override
    [process_input], the frame raises [NotImplementedError]: the call is
    made, no other method is called, neither flip nor tick is reached,
    and the scene objects are as they were. *)
Theorem abstract_process_input_aborts_the_frame
    keys events running (s : Runtime) (r : ref) :
  active_scene s = PyObj r →
  c_process_input (classes (cls (obj (world s) r))) = Scene.process_input →
  Game.frame classes keys events running s
  = (inl NotImplementedError,
     mkRuntime (world s) (active_scene s) (previous_scene s)
       (log s ++ [Call Driver r (process_input_
                                   (List.filter (non_quit keys) events))])).
Proof.
  intros Ha Hc. rewrite frame_unfold, bind_run.
  destruct s as [w a p l]; cbn in *. subst a.
  eff. by rewrite Hc.
Qed.

End more_driver_facts.

(** ** Further properties of [Scene] *)

Lemma set_next_scene_id (o : SceneObj) (n : pyref) :
  next_scene o = Some n → set_next_scene n o = o.
Proof. destruct o; cbn. by intros ->. Qed.

Section more_scene_facts.

Variable classes : string → SceneClass.

(** When [enter] has returned, the scene is in the store. *)
Lemma enter_stores_the_scene r s s' :
  Scene.enter classes r s = (inr tt, s') →
  objs (world s') !! r = Some (obj (world s') r).
Proof.
  destruct s as [w a p l]. eff. rewrite obj_insert_eq. cbn.
  destruct (assets_loaded (obj w r)); cbn.
  { intros [= <-]. cbn. rewrite obj_insert_eq. apply lookup_insert_eq. }
  destruct (c_load_assets _ _ _) as [[e|[]] w1]; cbn; [done|].
  intros [= <-]. cbn. rewrite obj_insert_eq. apply lookup_insert_eq.
Qed.

(** X5. [enter] is idempotent: once it has returned, entering the same
    scene again calls nothing (no second [load_assets]) and changes
    nothing. *)
Theorem enter_twice (r : ref) (s s1 : Runtime) :
  keeps_next_scene (c_load_assets (classes (cls (obj (world s) r)))) →
  Scene.enter classes r s = (inr tt, s1) →
  Scene.enter classes r s1 = (inr tt, s1).
Proof.
  intros Hk H.
  pose proof (enter_stores_the_scene _ _ _ H) as Hin.
  pose proof (enter_next_scene classes r s s1 Hk H) as Hn.
  apply enter_spec in H as (_ & _ & _ & _ & _ & Hl). specialize (Hl eq_refl).
  destruct s1 as [[sc m] a p l]. cbn in *.
  eff. rewrite obj_insert_eq. cbn. rewrite Hl. cbn.
  by rewrite set_next_scene_id, insert_id.
Qed.

End more_scene_facts.

(** ** The input handling of the scenes *)

Lemma obj_insert_other sc (m : gmap ref SceneObj) r r' o :
  r' ≠ r → obj (mkWorld sc (<[r := o]> m)) r' = obj (mkWorld sc m) r'.
Proof. intros H. unfold obj; simpl. by apply lookup_total_insert_ne. Qed.

Lemma only_changes_refl r w : only_changes r w w.
Proof. by split. Qed.

Lemma only_changes_trans r w1 w2 w3 :
  only_changes r w1 w2 → only_changes r w2 w3 → only_changes r w1 w3.
Proof.
  intros [Hs1 Ho1] [Hs2 Ho2]. split; [congruence|].
  intros r' Hr. by rewrite Ho2, Ho1.
Qed.

Lemma setattr_run r f w :
  setattr r f w = (inr tt, mkWorld (scenes w) (<[r := f (obj w r)]> (objs w))).
Proof. reflexivity. Qed.

Lemma setattr_only_changes r f w : only_changes r w (snd (setattr r f w)).
Proof.
  rewrite setattr_run. destruct w as [sc m]. split; [done|].
  intros r' Hr. by apply obj_insert_other.
Qed.

Lemma scenes_getitem_run name w r :
  scenes w !! name = Some r → scenes_getitem name w = (inr r, w).
Proof. intros H. unfold scenes_getitem. by rewrite H. Qed.

(** One pass of the loop body of [PlayScene1.process_input]. *)
Lemma play1_body self play2 special event w :
  scenes w !! "play2" = Some play2 →
  scenes w !! "special" = Some special →
  ∃ w',
    (when (type event =? KEYDOWN)
       (if key event =? K_RIGHT then
          n ← scenes_getitem "play2";
          setattr self (set_next_scene (PyObj n));;
          setattr self (set_terminated true)
        else
          when (key event =? K_UP)
            (n ← scenes_getitem "special";
             setattr self (set_next_scene (PyObj n))))) w = (inr tt, w') ∧
    only_changes self w w' ∧
    obj w' self = play1_step play2 special (obj w self) event.
Proof.
  intros H2 Hs. unfold play1_step, is_keydown, when.
  destruct (type event =? KEYDOWN); cbn [andb].
  2:{ exists w. repeat split; done. }
  destruct (key event =? K_RIGHT) eqn:Hr.
  { rewrite bind_run, (scenes_getitem_run _ _ _ H2). cbv beta iota.
    rewrite bind_run, !setattr_run. cbv beta iota.
    eexists. split; [done|]. destruct w as [sc m]. cbn.
    split; [|by rewrite !obj_insert_eq].
    split; [done|]. intros r' Hne. by rewrite !obj_insert_other. }
  destruct (key event =? K_UP).
  { rewrite bind_run, (scenes_getitem_run _ _ _ Hs). cbv beta iota.
    rewrite setattr_run.
    eexists. split; [done|]. destruct w as [sc m]. cbn.
    split; [|by rewrite !obj_insert_eq].
    split; [done|]. intros r' Hne. by rewrite !obj_insert_other. }
  exists w. repeat split; done.
Qed.

Lemma play1_process_input_fold self play2 special events keys w :
  scenes w !! "play2" = Some play2 →
  scenes w !! "special" = Some special →
  ∃ w',
    PlayScene1.process_input self events keys w = (inr tt, w') ∧
    only_changes self w w' ∧
    obj w' self = fold_left (play1_step play2 special) events (obj w self).
Proof.
  unfold PlayScene1.process_input.
  revert w. induction events as [|e events IH]; intros w H2 Hs.
  { exists w. repeat split; done. }
  cbn [for_ fold_left]. rewrite bind_run.
  destruct (play1_body self play2 special e w H2 Hs) as (w1 & E & Hc & Ho).
  rewrite E. cbv beta iota.
  destruct Hc as [Hsc Hoth].
  destruct (IH w1) as (w' & E' & Hc' & Ho'); [by rewrite Hsc..|].
  exists w'. split; [done|]. split.
  - eapply only_changes_trans; [by split|done].
  - by rewrite Ho', Ho.
Qed.

Lemma play1_fold_closed play2 special events (o : SceneObj) :
  fold_left (play1_step play2 special) events o
  = mkSceneObj (cls o) (cleanup_on_terminate o) (delay_asset_loading o)
      (assets_loaded o)
      (terminated o || existsb (is_keydown K_RIGHT) events)
      (play1_next play2 special events (next_scene o))
      (font_xl o).
Proof.
  induction events as [|e events IH] using rev_ind.
  { destruct o. cbn. by rewrite orb_false_r. }
  rewrite fold_left_app. cbn [fold_left]. rewrite IH.
  unfold play1_step, play1_next.
  rewrite existsb_app, List.filter_app. cbn [existsb List.filter].
  destruct (is_keydown K_RIGHT e) eqn:Hr; cbn [orb].
  { rewrite last_snoc, Hr. unfold set_terminated, set_next_scene. cbn.
    by rewrite !orb_true_r. }
  destruct (is_keydown K_UP e) eqn:Hu; cbn.
  { rewrite last_snoc, Hr. unfold set_next_scene. cbn. by rewrite !orb_false_r. }
  by rewrite app_nil_r, !orb_false_r.
Qed.

(** X6. What [PlayScene1.process_input] does with a frame's events, when
    ["play2"] and ["special"] are registered: it returns normally;
    [terminated] becomes true if the right arrow was pressed and is never
    reset; [next_scene] is decided by the last press of the right or the
    up arrow and keeps its value if there was none; no other attribute of
    the scene, no other object and no registry entry changes. *)
Theorem play1_process_input (self play2 special : ref) events keys (w : World) :
  scenes w !! "play2" = Some play2 →
  scenes w !! "special" = Some special →
  ∃ w',
    PlayScene1.process_input self events keys w = (inr tt, w') ∧
    scenes w' = scenes w ∧
    (∀ r', r' ≠ self → obj w' r' = obj w r') ∧
    obj w' self
    = mkSceneObj (cls (obj w self)) (cleanup_on_terminate (obj w self))
        (delay_asset_loading (obj w self)) (assets_loaded (obj w self))
        (terminated (obj w self) || existsb (is_keydown K_RIGHT) events)
        (play1_next play2 special events (next_scene (obj w self)))
        (font_xl (obj w self)).
Proof.
  intros H2 Hs.
  destruct (play1_process_input_fold self play2 special events keys w H2 Hs)
    as (w' & E & [Hsc Hoth] & Ho).
  exists w'. repeat split; try done.
  by rewrite Ho, play1_fold_closed.
Qed.

Lemma end_body self title event w :
  scenes w !! "title" = Some title →
  ∃ w',
    (when (type event =? KEYDOWN)
       (when (key event =? K_RIGHT)
          (n ← scenes_getitem "title";
           setattr self (set_next_scene (PyObj n));;
           setattr self (set_terminated true)))) w = (inr tt, w') ∧
    only_changes self w w' ∧
    obj w' self = end_step title (obj w self) event.
Proof.
  intros Ht. unfold end_step, is_keydown, when.
  destruct (type event =? KEYDOWN); cbn [andb].
  2:{ exists w. repeat split; done. }
  destruct (key event =? K_RIGHT) eqn:Hr.
  { rewrite bind_run, (scenes_getitem_run _ _ _ Ht). cbv beta iota.
    rewrite bind_run, !setattr_run. cbv beta iota.
    eexists. split; [done|]. destruct w as [sc m]. cbn.
    split; [|by rewrite !obj_insert_eq].
    split; [done|]. intros r' Hne. by rewrite !obj_insert_other. }
  exists w. repeat split; done.
Qed.

Lemma end_process_input_fold self title events keys w :
  scenes w !! "title" = Some title →
  ∃ w',
    EndScene.process_input self events keys w = (inr tt, w') ∧
    only_changes self w w' ∧
    obj w' self = fold_left (end_step title) events (obj w self).
Proof.
  unfold EndScene.process_input.
  revert w. induction events as [|e events IH]; intros w Ht.
  { exists w. repeat split; done. }
  cbn [for_ fold_left]. rewrite bind_run.
  destruct (end_body self title e w Ht) as (w1 & E & Hc & Ho).
  rewrite E. cbv beta iota.
  destruct Hc as [Hsc Hoth].
  destruct (IH w1) as (w' & E' & Hc' & Ho'); [by rewrite Hsc|].
  exists w'. split; [done|]. split.
  - eapply only_changes_trans; [by split|done].
  - by rewrite Ho', Ho.
Qed.

Lemma end_fold_closed title events (o : SceneObj) :
  fold_left (end_step title) events o
  = mkSceneObj (cls o) (cleanup_on_terminate o) (delay_asset_loading o)
      (assets_loaded o)
      (terminated o || existsb (is_keydown K_RIGHT) events)
      (if existsb (is_keydown K_RIGHT) events
       then Some (PyObj title) else next_scene o)
      (font_xl o).
Proof.
  induction events as [|e events IH] using rev_ind.
  { destruct o. cbn. by rewrite orb_false_r. }
  rewrite fold_left_app. cbn [fold_left]. rewrite IH.
  unfold end_step. rewrite existsb_app. cbn [existsb].
  destruct (is_keydown K_RIGHT e) eqn:Hr; cbn [orb].
  { unfold set_terminated, set_next_scene. cbn. by rewrite !orb_true_r. }
  by rewrite !orb_false_r.
Qed.

(** X7. What [EndScene.process_input] does with a frame's events, when
    ["title"] is registered: it returns normally; if the right arrow was
    pressed the scene asks for the title scene and is terminated; if not,
    [next_scene] stays and [terminated] stays; nothing else changes. *)
Theorem end_process_input (self title : ref) events keys (w : World) :
  scenes w !! "title" = Some title →
  ∃ w',
    EndScene.process_input self events keys w = (inr tt, w') ∧
    scenes w' = scenes w ∧
    (∀ r', r' ≠ self → obj w' r' = obj w r') ∧
    obj w' self
    = mkSceneObj (cls (obj w self)) (cleanup_on_terminate (obj w self))
        (delay_asset_loading (obj w self)) (assets_loaded (obj w self))
        (terminated (obj w self) || existsb (is_keydown K_RIGHT) events)
        (if existsb (is_keydown K_RIGHT) events
         then Some (PyObj title) else next_scene (obj w self))
        (font_xl (obj w self)).
Proof.
  intros Ht.
  destruct (end_process_input_fold self title events keys w Ht)
    as (w' & E & [Hsc Hoth] & Ho).
  exists w'. repeat split; try done.
  by rewrite Ho, end_fold_closed.
Qed.





(** ** What a whole run keeps *)

Section keeps.

Context {S : Type} (world_of : S → World).
Context (R : World → World → Prop) `{!PreOrder R}.

Lemma keeps_ret {A} (a : A) : keeps world_of R (mret a : Eff S A).
Proof. intros s. cbn. reflexivity. Qed.

Lemma keeps_raise {A} e : keeps world_of R (raise e : Eff S A).
Proof. intros s. cbn. reflexivity. Qed.

Lemma keeps_gets {A} (f : S → A) : keeps world_of R (gets f).
Proof. intros s. cbn. reflexivity. Qed.

Lemma keeps_bind {A B} (m : Eff S A) (f : A → Eff S B) :
  keeps world_of R m → (∀ a, keeps world_of R (f a)) → keeps world_of R (m ≫= f).
Proof.
  intros Hm Hf s. rewrite bind_run. specialize (Hm s).
  destruct (m s) as [[e|a] s1]; cbn in *; [done|].
  etrans; [done|]. apply Hf.
Qed.

Lemma keeps_when (c : bool) (m : Eff S unit) :
  keeps world_of R m → keeps world_of R (when c m).
Proof. intros Hm. destruct c; [done|]. apply keeps_ret. Qed.

Lemma keeps_for {A} (l : list A) (body : A → Eff S unit) :
  (∀ x, keeps world_of R (body x)) → keeps world_of R (for_ l body).
Proof.
  intros Hb. induction l as [|x l IH]; cbn.
  - apply keeps_ret.
  - apply keeps_bind; [apply Hb|]. by intros _.
Qed.

End keeps.

Section keeps_runtime.

Context (R : World → World → Prop) `{!PreOrder R}.

Lemma keeps_lift {A} (h : Eff World A) :
  keeps id R h → keeps world R (lift h).
Proof.
  intros Hh s. specialize (Hh (world s)). unfold lift.
  by destruct (h (world s)) as [res w].
Qed.

Lemma keeps_record e : keeps world R (record e).
Proof. intros s. cbn. reflexivity. Qed.

Lemma keeps_set_active_scene a : keeps world R (set_active_scene a).
Proof. intros s. cbn. reflexivity. Qed.

Lemma keeps_set_previous_scene p : keeps world R (set_previous_scene p).
Proof. intros s. cbn. reflexivity. Qed.

Lemma keeps_getattr {A} r (f : SceneObj → A) : keeps id R (getattr r f).
Proof. intros w. cbn. reflexivity. Qed.

Lemma keeps_getattr_opt {A} r (f : SceneObj → option A) :
  keeps id R (getattr_opt r f).
Proof. intros w. unfold getattr_opt. destruct (f (obj w r)); cbn; reflexivity. Qed.

Lemma keeps_scenes_getitem name : keeps id R (scenes_getitem name).
Proof.
  intros w. unfold scenes_getitem. destruct (scenes w !! name); cbn; reflexivity.
Qed.

Lemma keeps_on {A} target (m : ref → Eff Runtime A) :
  (∀ r, keeps world R (m r)) → keeps world R (Game.on target m).
Proof. intros Hm. destruct target; [apply keeps_raise; tc_solve|apply Hm]. Qed.

Section driver.

Variable classes : string → SceneClass.
Hypothesis Hload : ∀ c r, keeps id R (c_load_assets (classes c) r).
Hypothesis Hcleanup : ∀ c r, keeps id R (c_cleanup (classes c) r).
Hypothesis Hinput :
  ∀ c r events keys, keeps id R (c_process_input (classes c) r events keys).
Hypothesis Hupdate : ∀ c r, keeps id R (c_update (classes c) r).
Hypothesis Hrender : ∀ c r, keeps id R (c_render (classes c) r).
Hypothesis Hnext : ∀ r n, keeps id R (setattr r (set_next_scene n)).
Hypothesis Hloaded : ∀ r, keeps id R (setattr r (set_assets_loaded true)).

Lemma keeps_call_load_assets by_ r :
  keeps world R (Scene.call_load_assets classes by_ r).
Proof.
  intros [w a p l]. pose proof (Hload (cls (obj w r)) r w) as H. eff. by destruct (c_load_assets _ _ _).
Qed.

Lemma keeps_call_cleanup by_ r :
  keeps world R (Scene.call_cleanup classes by_ r).
Proof.
  intros [w a p l]. pose proof (Hcleanup (cls (obj w r)) r w) as H. eff. by destruct (c_cleanup _ _ _).
Qed.

Lemma keeps_call_process_input by_ r events keys :
  keeps world R (Scene.call_process_input classes by_ r events keys).
Proof.
  intros [w a p l]. pose proof (Hinput (cls (obj w r)) r events keys w) as H. eff. by destruct (c_process_input _ _ _ _ _).
Qed.

Lemma keeps_call_update by_ r :
  keeps world R (Scene.call_update classes by_ r).
Proof.
  intros [w a p l]. pose proof (Hupdate (cls (obj w r)) r w) as H. eff. by destruct (c_update _ _ _).
Qed.

Lemma keeps_call_render by_ r :
  keeps world R (Scene.call_render classes by_ r).
Proof.
  intros [w a p l]. pose proof (Hrender (cls (obj w r)) r w) as H. eff. by destruct (c_render _ _ _).
Qed.

Lemma keeps_enter r : keeps world R (Scene.enter classes r).
Proof.
  unfold Scene.enter.
  apply keeps_bind; [tc_solve|by apply keeps_lift|]. intros _.
  apply keeps_bind; [tc_solve|apply keeps_lift, keeps_getattr; tc_solve|].
  intros loaded. apply keeps_when; [tc_solve|].
  apply keeps_bind; [tc_solve|apply keeps_call_load_assets|]. intros _.
  by apply keeps_lift.
Qed.

Lemma keeps_call_enter by_ r : keeps world R (Scene.call_enter classes by_ r).
Proof.
  unfold Scene.call_enter.
  apply keeps_bind; [tc_solve|apply keeps_record; tc_solve|]. intros _.
  apply keeps_enter.
Qed.

Lemma keeps_call_exit by_ r : keeps world R (Scene.call_exit by_ r).
Proof.
  unfold Scene.call_exit, Scene.exit.
  apply keeps_bind; [tc_solve|apply keeps_record; tc_solve|]. intros _.
  apply keeps_ret; tc_solve.
Qed.

Lemma keeps_manage_scene filtered keys :
  keeps world R (Game.manage_scene classes filtered keys).
Proof.
  unfold Game.manage_scene.
  repeat (first
    [ apply keeps_call_process_input
    | apply keeps_call_update
    | apply keeps_call_render
    | apply keeps_gets; tc_solve
    | apply keeps_on; intros ?
    | apply keeps_bind; [tc_solve| |intros ?] ]).
Qed.

Lemma keeps_check_for_scene_change :
  keeps world R (Game.check_for_scene_change classes).
Proof.
  unfold Game.check_for_scene_change.
  apply keeps_bind; [tc_solve|apply keeps_gets; tc_solve|]. intros current_scene.
  apply keeps_bind; [tc_solve| |].
  { apply keeps_on. intros r. apply keeps_lift, keeps_getattr_opt. }
  intros n.
  apply keeps_bind; [tc_solve|apply keeps_set_active_scene|]. intros _.
  apply keeps_bind; [tc_solve|apply keeps_gets; tc_solve|]. intros a.
  apply keeps_when; [tc_solve|].
  apply keeps_bind; [tc_solve|apply keeps_set_previous_scene|]. intros _.
  apply keeps_bind; [tc_solve| |].
  { apply keeps_on. intros r. apply keeps_call_exit. }
  intros _.
  apply keeps_bind; [tc_solve| |].
  { apply keeps_on. intros r. apply keeps_lift, keeps_getattr. }
  intros t.
  apply keeps_bind; [tc_solve| |].
  { apply keeps_when; [tc_solve|]. apply keeps_on. intros r.
    apply keeps_call_cleanup. }
  intros _.
  apply keeps_bind; [tc_solve|apply keeps_gets; tc_solve|]. intros a'.
  apply keeps_on. intros r. apply keeps_call_enter.
Qed.

Lemma keeps_frame keys events running :
  keeps world R (Game.frame classes keys events running).
Proof.
  rewrite frame_unfold. unfold Game.update_and_tick.
  repeat (first
    [ apply keeps_manage_scene
    | apply keeps_check_for_scene_change
    | apply keeps_ret; tc_solve
    | apply keeps_record; tc_solve
    | apply keeps_bind; [tc_solve| |intros ?] ]).
Qed.

Lemma keeps_loop inputs running :
  keeps world R (Game.loop classes inputs running).
Proof.
  revert running. induction inputs as [|[keys events] inputs IH]; intros running.
  - destruct running; cbn [Game.loop].
    + apply keeps_ret; tc_solve.
    + apply keeps_bind; [tc_solve|apply keeps_record; tc_solve|]. intros _.
      apply keeps_ret; tc_solve.
  - destruct running; cbn [Game.loop].
    + apply keeps_bind; [tc_solve|apply keeps_frame|]. intros b. apply IH.
    + apply keeps_bind; [tc_solve|apply keeps_record; tc_solve|]. intros _.
      apply keeps_ret; tc_solve.
Qed.

End driver.

End keeps_runtime.

#[local] Instance stays_preorder flag : PreOrder (stays flag).
Proof.
  split.
  - by intros w r.
  - intros w1 w2 w3 H1 H2 r Hr. by apply H2, H1.
Qed.

Lemma setattr_stays flag r f :
  (∀ o, flag o = true → flag (f o) = true) →
  keeps id (stays flag) (setattr r f).
Proof.
  intros Hf [sc m] r' Hr'. rewrite setattr_run. cbn in *.
  destruct (decide (r' = r)) as [->|Hne].
  - rewrite obj_insert_eq. by apply Hf.
  - by rewrite obj_insert_other.
Qed.

(** The input handling of the scene classes at hand assigns [next_scene]
    and [terminated] only. *)
Lemma repo_process_input_stays flag c r events keys :
  (∀ n o, flag o = true → flag (set_next_scene n o) = true) →
  (∀ o, flag o = true → flag (set_terminated true o) = true) →
  keeps id (stays flag) (c_process_input (repo_classes c) r events keys).
Proof.
  intros Hn Ht. unfold repo_classes. repeat case_decide; cbn.
  - apply keeps_for; [tc_solve|]. intros e.
    apply keeps_when; [tc_solve|]. destruct (key e =? K_RIGHT).
    + apply keeps_bind; [tc_solve|apply keeps_scenes_getitem; tc_solve|].
      intros n.
      apply keeps_bind; [tc_solve|apply setattr_stays; auto|].
      intros _. apply setattr_stays; auto.
    + apply keeps_when; [tc_solve|].
      apply keeps_bind; [tc_solve|apply keeps_scenes_getitem; tc_solve|].
      intros n. apply setattr_stays; auto.
  - apply keeps_for; [tc_solve|]. intros e.
    apply keeps_when; [tc_solve|]. apply keeps_when; [tc_solve|].
    apply keeps_bind; [tc_solve|apply keeps_scenes_getitem; tc_solve|].
    intros n.
    apply keeps_bind; [tc_solve|apply setattr_stays; auto|].
    intros _. apply setattr_stays; auto.
  - apply keeps_raise; tc_solve.
Qed.

Lemma repo_load_assets_stays_terminated c r :
  keeps id (stays terminated) (c_load_assets (repo_classes c) r).
Proof.
  unfold repo_classes. repeat case_decide; cbn.
  1,2: by apply setattr_stays.
  apply keeps_ret; tc_solve.
Qed.

Lemma repo_cleanup_stays_terminated c r :
  keeps id (stays terminated) (c_cleanup (repo_classes c) r).
Proof.
  unfold repo_classes. repeat case_decide; cbn.
  1,2: apply keeps_bind; [tc_solve|by apply setattr_stays|];
       intros _; by apply setattr_stays.
  apply keeps_ret; tc_solve.
Qed.

Lemma repo_update_keeps (R : World → World → Prop) `{!PreOrder R} c r :
  keeps id R (c_update (repo_classes c) r).
Proof.
  unfold repo_classes. repeat case_decide; cbn.
  1,2: apply keeps_ret; tc_solve.
  apply keeps_raise; tc_solve.
Qed.

Lemma repo_render_keeps (R : World → World → Prop) `{!PreOrder R} c r :
  keeps id R (c_render (repo_classes c) r).
Proof.
  unfold repo_classes. repeat case_decide; cbn.
  1,2: apply keeps_bind; [tc_solve|apply keeps_getattr_opt; tc_solve|];
       intros _; apply keeps_ret; tc_solve.
  apply keeps_raise; tc_solve.
Qed.

(** X9. Nothing in the loop resets [terminated]: a scene that is
    terminated when [run] starts, or becomes so on the way, is terminated
    ever after, whatever is pressed and also when it is entered again. *)
Theorem terminated_is_never_reset inputs (s : Runtime) (r : ref) :
  terminated (obj (world s) r) = true →
  terminated (obj (world (snd (Game.run repo_classes inputs s))) r) = true.
Proof.
  intros Hr. revert r Hr.
  apply (keeps_loop (stays terminated) repo_classes).
  - apply repo_load_assets_stays_terminated.
  - apply repo_cleanup_stays_terminated.
  - intros c r' events keys. by apply repo_process_input_stays.
  - intros c r'. apply (repo_update_keeps (stays terminated)).
  - intros c r'. apply (repo_render_keeps (stays terminated)).
  - intros r' n. by apply setattr_stays.
  - intros r'. by apply setattr_stays.
Qed.

(** ** The scene classes at hand never fail in a scene change *)

Lemma repo_cleanup_returns c r w : fst (c_cleanup (repo_classes c) r w) = inr tt.
Proof. unfold repo_classes. by repeat case_decide. Qed.

Lemma repo_call_enter_returns by_ r s :
  fst (Scene.call_enter repo_classes by_ r s) = inr tt.
Proof.
  unfold Scene.call_enter. rewrite bind_run. cbn.
  apply repo_enter.
Qed.

Lemma repo_check_returns (s : Runtime) (r n : ref) :
  active_scene s = PyObj r →
  next_scene (obj (world s) r) = Some (PyObj n) →
  fst (Game.check_for_scene_change repo_classes s) = inr tt.
Proof.
  destruct s as [w a p l]; cbn. intros -> Hn.
  effd. rewrite Hn. cbn.
  destruct (is_not (PyObj r) (PyObj n)); cbn; [|done].
  unfold Scene.call_exit, Scene.exit. effd.
  destruct (terminated (obj w r)); cbn.
  - destruct (Scene.call_cleanup _ _ _ _) as [res s1] eqn:E.
    apply call_cleanup_spec in E as (Ha & _ & _ & Hh). cbn in *.
    pose proof (repo_cleanup_returns (cls (obj w r)) r w) as Hr.
    rewrite Hh in Hr. cbn in Hr. subst res. rewrite Ha.
    apply repo_call_enter_returns.
  - apply repo_call_enter_returns.
Qed.

(** X10. With the scene classes at hand a scene change cannot fail: when
    the active scene names a scene as its successor, the check for a scene
    change returns; [exit], [cleanup], [enter] and [load_assets] raise
    nothing. *)
Theorem scene_change_returns (s : Runtime) (r n : ref) :
  active_scene s = PyObj r →
  next_scene (obj (world s) r) = Some (PyObj n) →
  ∃ s', Game.check_for_scene_change repo_classes s = (inr tt, s').
Proof.
  intros Ha Hn. pose proof (repo_check_returns s r n Ha Hn) as H.
  destruct (Game.check_for_scene_change repo_classes s) as [res s'].
  cbn in H. subst res. by exists s'.
Qed.

Section run_equations.

Variable classes : string → SceneClass.

(** [# Manage scene] when the three methods return. *)
Lemma manage_scene_run filtered keys (s : Runtime) (r : ref) (w1 w2 w3 : World) :
  active_scene s = PyObj r →
  c_process_input (classes (cls (obj (world s) r))) r filtered keys (world s)
  = (inr tt, w1) →
  c_update (classes (cls (obj w1 r))) r w1 = (inr tt, w2) →
  c_render (classes (cls (obj w2 r))) r w2 = (inr tt, w3) →
  Game.manage_scene classes filtered keys s
  = (inr tt, mkRuntime w3 (PyObj r) (previous_scene s)
               (log s ++ managed r filtered)).
Proof.
  destruct s as [w a p l]; cbn. intros -> E1 E2 E3.
  eff. rewrite E1. cbn. rewrite E2. cbn. rewrite E3. cbn.
  by rewrite <- !app_assoc.
Qed.

End run_equations.

Lemma play1_next_is_a_scene play2 special events v :
  ∃ n, play1_next play2 special events (Some (PyObj v)) = Some (PyObj n).
Proof. unfold play1_next. destruct (last _); eauto. Qed.

(** X11. A frame with play scene 1 or the end scene active cannot fail: if
    the scene has its font and a scene as [next_scene] (as it has once it
    is entered) and the scenes it can ask for are registered, the frame
    returns, whatever the events. *)
Theorem frame_returns keys events running (s : Runtime) (r v : ref) :
  active_scene s = PyObj r →
  next_scene (obj (world s) r) = Some (PyObj v) →
  is_Some (font_xl (obj (world s) r)) →
  cls (obj (world s) r) = "PlayScene1" ∧
    is_Some (scenes (world s) !! "play2") ∧
    is_Some (scenes (world s) !! "special")
  ∨ cls (obj (world s) r) = "EndScene" ∧
    is_Some (scenes (world s) !! "title") →
  ∃ running' s',
    Game.frame repo_classes keys events running s = (inr running', s').
Proof.
  intros Ha Hn [f Hf] Hcls.
  assert (Hm : ∃ w1 n,
    Game.manage_scene repo_classes (List.filter (non_quit keys) events) keys s
    = (inr tt, mkRuntime w1 (PyObj r) (previous_scene s)
                 (log s ++ managed r (List.filter (non_quit keys) events))) ∧
    next_scene (obj w1 r) = Some (PyObj n)).
  { destruct Hcls as [(Hc & [p2 H2] & [sp Hs]) | (Hc & [t Ht])].
    - destruct (play1_process_input_fold r p2 sp
                  (List.filter (non_quit keys) events) keys (world s) H2 Hs)
        as (w1 & E & _ & Ho).
      rewrite play1_fold_closed in Ho.
      destruct (play1_next_is_a_scene p2 sp (List.filter (non_quit keys) events) v)
        as [n Hnext].
      exists w1, n. split; [|by rewrite Ho, Hn].
      apply manage_scene_run with (w1 := w1) (w2 := w1); [done|..].
      + rewrite Hc. exact E.
      + rewrite Ho. cbn. by rewrite Hc.
      + rewrite Ho. cbn. rewrite Hc.
        change (c_render (repo_classes "PlayScene1")) with PlayScene1.render.
        unfold PlayScene1.render, getattr_opt. rewrite bind_run, Ho. cbn.
        by rewrite Hf.
    - destruct (end_process_input_fold r t
                  (List.filter (non_quit keys) events) keys (world s) Ht)
        as (w1 & E & _ & Ho).
      rewrite end_fold_closed in Ho.
      exists w1, (if existsb (is_keydown K_RIGHT) (List.filter (non_quit keys) events)
                  then t else v).
      split; [|rewrite Ho, Hn; cbn; by destruct (existsb _ _)].
      apply manage_scene_run with (w1 := w1) (w2 := w1); [done|..].
      + rewrite Hc. exact E.
      + rewrite Ho. cbn. by rewrite Hc.
      + rewrite Ho. cbn. rewrite Hc.
        change (c_render (repo_classes "EndScene")) with EndScene.render.
        unfold EndScene.render, getattr_opt. rewrite bind_run, Ho. cbn.
        by rewrite Hf. }
  destruct Hm as (w1 & n & Hm & Hn1).
  rewrite frame_unfold, bind_run, Hm. cbv beta iota. rewrite bind_run.
  match goal with |- context [Game.check_for_scene_change repo_classes ?s1] =>
    pose proof (repo_check_returns s1 r n eq_refl Hn1) as Hc;
    destruct (Game.check_for_scene_change repo_classes s1) as [res s2]
  end.
  cbn in Hc. subst res. rewrite bind_run, update_and_tick_run.
  by eexists _, _.
Qed.

(** ** The active scene has its assets *)

Lemma check_keeps_loaded classes (s s' : Runtime) (r : ref) :
  active_scene s = PyObj r →
  assets_loaded (obj (world s) r) = true →
  Game.check_for_scene_change classes s = (inr tt, s') →
  ∃ r', active_scene s' = PyObj r' ∧ assets_loaded (obj (world s') r') = true.
Proof.
  destruct s as [w a p l]; cbn. intros -> Hl.
  effd. destruct (next_scene (obj w r)) as [v|]; cbn; [|done].
  destruct (is_not (PyObj r) v) eqn:Hv; cbn.
  2:{ intros [= <-]. cbn. exists r.
      unfold is_not in Hv. apply bool_decide_eq_false in Hv.
      by destruct (decide (PyObj r = v)) as [<-|]. }
  unfold Scene.call_exit, Scene.exit. effd.
  assert (Hen : ∀ s1, active_scene s1 = v →
     match v with
     | PyObj r0 => Scene.call_enter classes Driver r0
     | PyNone => λ s, (inl AttributeError, s)
     end s1 = (inr tt, s') →
     ∃ r', active_scene s' = PyObj r' ∧ assets_loaded (obj (world s') r') = true).
  { intros s1 Ha. destruct v as [|n]; [done|].
    unfold Scene.call_enter. rewrite bind_run. cbn.
    intros H. apply enter_spec in H as (Ha' & _ & _ & _ & _ & Hl').
    cbn in Ha'. exists n. split; [congruence|by apply Hl']. }
  destruct (terminated (obj w r)); cbn.
  - destruct (Scene.call_cleanup _ _ _ _) as [[e|[]] s1] eqn:E; [done|].
    apply call_cleanup_spec in E as (Ha & _). cbn in *.
    rewrite Ha. by apply Hen.
  - by apply Hen.
Qed.

Lemma repo_manage_scene_stays_loaded filtered keys :
  keeps world (stays assets_loaded)
    (Game.manage_scene repo_classes filtered keys).
Proof.
  apply keeps_manage_scene; [tc_solve|..].
  - intros c r events keys'. by apply repo_process_input_stays.
  - intros c r. apply (repo_update_keeps (stays assets_loaded)).
  - intros c r. apply (repo_render_keeps (stays assets_loaded)).
Qed.

Lemma repo_frame_keeps_loaded keys events running (s s' : Runtime) (r : ref) b :
  active_scene s = PyObj r →
  assets_loaded (obj (world s) r) = true →
  Game.frame repo_classes keys events running s = (inr b, s') →
  ∃ r', active_scene s' = PyObj r' ∧ assets_loaded (obj (world s') r') = true.
Proof.
  intros Ha Hl. rewrite frame_unfold, bind_run.
  pose proof (repo_manage_scene_stays_loaded
                (List.filter (non_quit keys) events) keys s r Hl) as Hl1.
  destruct (Game.manage_scene _ _ _ _) as [[e|[]] s1] eqn:E1; [done|].
  apply (manage_scene_spec _ _ _ _ r) in E1 as (Ha1 & _); [|done].
  cbn in Hl1. rewrite bind_run.
  destruct (Game.check_for_scene_change _ _) as [[e|[]] s2] eqn:E2; [done|].
  apply (check_keeps_loaded _ _ _ r) in E2 as (r' & Hr' & Hl2); [|done..].
  rewrite bind_run, update_and_tick_run. intros [= <- <-]. by exists r'.
Qed.

Lemma repo_loop_keeps_loaded inputs running (s s' : Runtime) (r : ref) out :
  active_scene s = PyObj r →
  assets_loaded (obj (world s) r) = true →
  Game.loop repo_classes inputs running s = (inr out, s') →
  ∃ r', active_scene s' = PyObj r' ∧ assets_loaded (obj (world s') r') = true.
Proof.
  revert s r running.
  induction inputs as [|[keys events] inputs IH]; intros s r running Ha Hl.
  - destruct running; cbn.
    + intros [= <- <-]. by exists r.
    + effd. intros [= <- <-]. by exists r.
  - destruct running; cbn [Game.loop].
    + rewrite bind_run.
      destruct (Game.frame _ _ _ _ _) as [[e|b] s1] eqn:E; [done|].
      apply (repo_frame_keeps_loaded _ _ _ _ _ r) in E as (r1 & Hr1 & Hl1); [|done..].
      by apply (IH s1 r1).
    + effd. intros [= <- <-]. by exists r.
Qed.

(** X12. With the scene classes at hand, the scene that is active has its
    assets loaded: if that holds when [run] starts, it holds after every
    frame, across scene changes and cleanups, and when [run] returns. *)
Theorem active_scene_is_loaded inputs (s s' : Runtime) (r : ref) (out : outcome) :
  active_scene s = PyObj r →
  assets_loaded (obj (world s) r) = true →
  Game.run repo_classes inputs s = (inr out, s') →
  ∃ r', active_scene s' = PyObj r' ∧ assets_loaded (obj (world s') r') = true.
Proof. intros Ha Hl. by apply repo_loop_keeps_loaded with (r := r). Qed.

(** ** Coming back to a scene *)

Lemma repo_cleanup_only_changes c r w :
  only_changes r w (snd (c_cleanup (repo_classes c) r w)).
Proof.
  unfold repo_classes. repeat case_decide; cbn; [..|apply only_changes_refl].
  all: unfold PlayScene1.cleanup, EndScene.cleanup; rewrite bind_run, !setattr_run;
    cbv beta iota; destruct w as [sc m]; cbn; (split; [done|]);
    intros r' Hne; by rewrite !obj_insert_other.
Qed.

Lemma call_enter_loaded_run classes by_ (r : ref) (s : Runtime) :
  assets_loaded (obj (world s) r) = true →
  Scene.call_enter classes by_ r s
  = (inr tt,
     mkRuntime
       (mkWorld (scenes (world s))
          (<[r := set_next_scene (PyObj r) (obj (world s) r)]> (objs (world s))))
       (active_scene s) (previous_scene s)
       (log s ++ [Call by_ r enter_])).
Proof.
  destruct s as [w a p l]; cbn. intros Hl.
  eff. rewrite obj_insert_eq. cbn. by rewrite Hl.
Qed.

(** X13. Coming back to a scene whose assets are still loaded costs no
    reload: with the scene classes at hand, a change to such a scene
    consists of [exit], [cleanup] of the outgoing scene if that one is
    terminated, and [enter]; [load_assets] is not called, and the scene
    has the assets it had. *)
Theorem reentry_without_reload (s : Runtime) (r n : ref) :
  active_scene s = PyObj r →
  next_scene (obj (world s) r) = Some (PyObj n) →
  n ≠ r →
  assets_loaded (obj (world s) n) = true →
  ∃ s',
    Game.check_for_scene_change repo_classes s = (inr tt, s') ∧
    active_scene s' = PyObj n ∧
    log s' = (log s ++ Call Driver r exit_
                :: (if terminated (obj (world s) r)
                    then [Call Driver r cleanup_] else [])
                ++ [Call Driver n enter_])%list ∧
    assets_loaded (obj (world s') n) = true ∧
    font_xl (obj (world s') n) = font_xl (obj (world s) n).
Proof.
  destruct s as [w a p l]; cbn. intros -> Hn Hne Hl.
  effd. rewrite Hn. cbn. rewrite is_not_obj, bool_decide_true by done. cbn.
  unfold Scene.call_exit, Scene.exit. effd.
  destruct (terminated (obj w r)); cbn.
  - destruct (Scene.call_cleanup _ _ _ _) as [res s1] eqn:E.
    apply call_cleanup_spec in E as (Ha & _ & Hl1 & Hh). cbn in *.
    pose proof (repo_cleanup_returns (cls (obj w r)) r w) as Hr.
    pose proof (repo_cleanup_only_changes (cls (obj w r)) r w) as [_ Ho].
    rewrite Hh in Hr, Ho. cbn in Hr, Ho. subst res. rewrite Ha.
    rewrite call_enter_loaded_run by (by rewrite Ho).
    eexists. split; [done|]. cbn.
    rewrite Ha, Hl1, obj_insert_eq. cbn.
    rewrite !Ho by done.
    split; [done|]. split; [by rewrite <- !app_assoc|]. by split.
  - rewrite call_enter_loaded_run by done.
    eexists. split; [done|]. cbn. rewrite obj_insert_eq. cbn.
    split; [done|]. split; [by rewrite <- app_assoc|]. by split.
Qed.

(** ** Leaving a terminated scene *)

Lemma repo_load_assets_only_changes c r w :
  only_changes r w (snd (c_load_assets (repo_classes c) r w)).
Proof.
  unfold repo_classes. repeat case_decide; cbn; [..|apply only_changes_refl].
  all: apply setattr_only_changes.
Qed.

Lemma repo_enter_only_changes (n : ref) (s : Runtime) :
  only_changes n (world s) (world (snd (Scene.enter repo_classes n s))).
Proof.
  destruct s as [w a p l]. eff. rewrite obj_insert_eq. cbn.
  pose proof (setattr_only_changes n (set_next_scene (PyObj n)) w) as H0.
  rewrite setattr_run in H0. cbn in H0.
  destruct (assets_loaded (obj w n)); cbn; [done|].
  match goal with |- context [c_load_assets (repo_classes ?k) n ?w1] =>
    pose proof (repo_load_assets_returns k n w1) as Hr;
    pose proof (repo_load_assets_only_changes k n w1) as H1;
    destruct (c_load_assets (repo_classes k) n w1) as [res w2]
  end.
  cbn in Hr, H1. subst res. cbn.
  eapply only_changes_trans; [exact H0|].
  eapply only_changes_trans; [exact H1|].
  pose proof (setattr_only_changes n (set_assets_loaded true) w2) as H2.
  by rewrite setattr_run in H2.
Qed.

(** X14. Leaving a terminated scene unloads it: when play scene 1 or the
    end scene is terminated and names another scene as its successor, the
    scene change returns with the other scene active, entered and loaded,
    and with the scene that was left remembered as [previous_scene],
    without its font and with [assets_loaded] false, whatever its
    [cleanup_on_terminate] says.  It is still terminated. *)
Theorem leaving_a_terminated_scene_unloads_it (s : Runtime) (r n : ref) :
  active_scene s = PyObj r →
  next_scene (obj (world s) r) = Some (PyObj n) →
  n ≠ r →
  terminated (obj (world s) r) = true →
  cls (obj (world s) r) = "PlayScene1" ∨ cls (obj (world s) r) = "EndScene" →
  ∃ s',
    Game.check_for_scene_change repo_classes s = (inr tt, s') ∧
    active_scene s' = PyObj n ∧
    previous_scene s' = Some (PyObj r) ∧
    font_xl (obj (world s') r) = None ∧
    assets_loaded (obj (world s') r) = false ∧
    terminated (obj (world s') r) = true ∧
    assets_loaded (obj (world s') n) = true ∧
    next_scene (obj (world s') n) = Some (PyObj n).
Proof.
  destruct s as [w a p l]; cbn. intros -> Hn Hne Ht Hc.
  effd. rewrite Hn. cbn. rewrite is_not_obj, bool_decide_true by done. cbn.
  unfold Scene.call_exit, Scene.exit. effd. rewrite Ht. cbn.
  destruct (Scene.call_cleanup _ _ _ _) as [res s1] eqn:E.
  apply call_cleanup_spec in E as (Ha & Hp & _ & Hh). cbn in *.
  assert (Hw : res = inr tt ∧
               world s1 = mkWorld (scenes w)
                 (<[r := set_assets_loaded false (set_font_xl None (obj w r))]>
                    (objs w))).
  { destruct Hc as [Hc | Hc]; rewrite Hc in Hh.
    - change (c_cleanup (repo_classes "PlayScene1")) with PlayScene1.cleanup in Hh.
      unfold PlayScene1.cleanup in Hh. rewrite bind_run, !setattr_run in Hh.
      cbv beta iota in Hh. destruct w as [sc m]. cbn in Hh.
      rewrite obj_insert_eq, insert_insert_eq in Hh. by injection Hh as <- <-.
    - change (c_cleanup (repo_classes "EndScene")) with EndScene.cleanup in Hh.
      unfold EndScene.cleanup in Hh. rewrite bind_run, !setattr_run in Hh.
      cbv beta iota in Hh. destruct w as [sc m]. cbn in Hh.
      rewrite obj_insert_eq, insert_insert_eq in Hh. by injection Hh as <- <-. }
  destruct Hw as [-> Hw]. rewrite Ha.
  unfold Scene.call_enter. rewrite bind_run. unfold record at 1, modify at 1.
  cbv beta iota.
  match goal with |- context [Scene.enter repo_classes n ?s2] =>
    destruct (repo_enter n s2) as (Hr & Hl & Hx);
    pose proof (repo_enter_only_changes n s2) as [_ Ho];
    pose proof (enter_spec repo_classes n s2) as Hs;
    destruct (Scene.enter repo_classes n s2) as [res s3]
  end.
  cbn in Hr, Hl, Hx, Ho. subst res.
  destruct (Hs _ _ eq_refl) as (Ha3 & Hp3 & _). cbn in Ha3, Hp3.
  exists s3. split; [done|]. rewrite Ha3, Hp3, Hp. split; [done|]. split; [done|].
  rewrite (Ho r) by done. rewrite Hw.
  destruct w as [sc m]. rewrite obj_insert_eq. cbn.
  repeat split; done.
Qed.

(** ** More on the prototype *)

Module more_prototype_facts.

Import scene_manager.

Lemma only_prints_refl s : only_prints s s.
Proof. done. Qed.

Lemma only_prints_trans s1 s2 s3 :
  only_prints s1 s2 → only_prints s2 s3 → only_prints s1 s3.
Proof. intros (?&?&?) (?&?&?). repeat split; congruence. Qed.

Lemma for_only_prints {A} (P : A → Prop) (l : list A)
    (body : A → Eff scene_manager.Runtime unit) :
  (∀ x s, P x → ∃ s', body x s = (inr tt, s') ∧ only_prints s s') →
  Forall P l →
  ∀ s, ∃ s', for_ l body s = (inr tt, s') ∧ only_prints s s'.
Proof.
  intros Hb Hl. induction Hl as [|x l Hx Hl IH]; intros s; cbn.
  - exists s. by split.
  - rewrite bind_run. destruct (Hb x s Hx) as (s1 & E & H1). rewrite E.
    destruct (IH s1) as (s2 & E2 & H2). exists s2. split; [done|].
    by eapply only_prints_trans.
Qed.

(** Events other than a press of the space bar leave the scenes of the
    prototype as they are; the title and the end scene print ["down"] for
    every key press. *)
Lemma process_input_without_space r events keys s :
  cls (scene_manager.obj s r) ≠ Scene →
  existsb (is_keydown K_SPACE) events = false →
  ∃ s', process_input r events keys s = (inr tt, s') ∧ only_prints s s'.
Proof.
  intros Hc Hs.
  assert (Hall : Forall (λ e, is_keydown K_SPACE e = false) events).
  { clear -Hs. induction events as [|e events IH]; [done|]. cbn in Hs.
    apply orb_false_iff in Hs as [??]. constructor; auto. }
  unfold process_input. rewrite bind_run. unfold gets at 1. cbv beta iota.
  destruct (cls (scene_manager.obj s r)); [done|..].
  all: apply (for_only_prints (λ e, is_keydown K_SPACE e = false));
    [|done]; intros e s0 He; unfold is_keydown in He; unfold when at 1;
    destruct (type e =? KEYDOWN); cbn in He; [|by exists s0].
  - rewrite bind_run. unfold print at 1, modify at 1. cbv beta iota.
    unfold when. rewrite He. eexists. split; [done|]. done.
  - unfold when. rewrite He. by exists s0.
  - rewrite bind_run. unfold print at 1, modify at 1. cbv beta iota.
    unfold when. rewrite He. eexists. split; [done|]. done.
Qed.

Lemma event_handling_keeps_cls keys events acc s res s' r :
  MyGame.event_handling keys events acc s = (res, s') →
  cls (scene_manager.obj s' r) = cls (scene_manager.obj s r).
Proof.
  revert acc s. induction events as [|e events IH]; intros acc s; cbn.
  - by intros [= _ <-].
  - destruct (MyGame.is_quit_event e keys).
    + rewrite bind_run. unfold gets at 1. cbv beta iota.
      destruct (scene_manager.active_scene s) as [|a] eqn:Ha; cbn [scene_manager.on].
      * rewrite bind_run. by intros [= _ <-].
      * rewrite !bind_run. unfold scene_manager.record at 1, modify at 1.
        cbv beta iota. unfold terminate at 1, scene_manager.set_next_scene at 1,
          modify at 1. cbv beta iota.
        intros H. apply IH in H. rewrite H. unfold scene_manager.obj. cbn.
        destruct (decide (r = a)) as [->|Hne].
        -- by rewrite lookup_total_insert_eq.
        -- by rewrite lookup_total_insert_ne.
    + apply IH.
Qed.


Lemma game_logic_without_space filtered keys s r :
  scene_manager.active_scene s = PyObj r →
  cls (scene_manager.obj s r) ≠ Scene →
  existsb (is_keydown K_SPACE) filtered = false →
  ∃ s1, MyGame.game_logic filtered keys s = (inr tt, s1) ∧
        scene_manager.objs s1 = scene_manager.objs s.
Proof.
  destruct s as [m a o l]; cbn. intros -> Hc Hs.
  unfold MyGame.game_logic.
  unfold mbind at 1, Eff_bind at 1, gets at 1. cbn.
  unfold mbind at 1, Eff_bind at 1.
  unfold mbind at 1, Eff_bind at 1. cbn.
  match goal with |- context [process_input r filtered keys ?s0] =>
    destruct (process_input_without_space r filtered keys s0 Hc Hs)
      as (s1 & E1 & Ho1 & Ha1 & Hl1)
  end.
  rewrite E1. destruct s1 as [m1 a1 o1 l1]. cbn in *. subst m1 a1 l1.
  unfold mbind at 1, Eff_bind at 1, gets at 1. cbn.
  unfold mbind at 1, Eff_bind at 1.
  unfold mbind at 1, Eff_bind at 1. cbn.
  unfold update at 1. unfold mbind at 1, Eff_bind at 1, gets at 1. cbn.
  change (scene_manager.obj _ r) with
    (scene_manager.obj (scene_manager.mkRuntime m (PyObj r) o l) r) in *.
  destruct (cls _) eqn:Hcls; [done|..].
  all: cbn; unfold mbind at 1, Eff_bind at 1, gets at 1; cbn;
       unfold mbind at 1, Eff_bind at 1; cbn;
       unfold render at 1; unfold mbind at 1, Eff_bind at 1, gets at 1; cbn;
       change (scene_manager.obj _ r) with
         (scene_manager.obj (scene_manager.mkRuntime m (PyObj r) o l) r);
       rewrite Hcls; cbn; by eexists.
Qed.

(** X16. In the prototype a quit signal ends the loop with the frame it
    arrives in, provided none of the other events of that frame is a
    press of the space bar (which would construct the next scene and
    undo the [terminate()]). *)
Theorem prototype_quit_ends_the_loop keys events rest
    (s : scene_manager.Runtime) (r : ref) :
  scene_manager.active_scene s = PyObj r →
  cls (scene_manager.obj s r) ≠ Scene →
  existsb (λ e, MyGame.is_quit_event e keys) events = true →
  existsb (is_keydown K_SPACE)
    (List.filter (λ e, negb (MyGame.is_quit_event e keys)) events) = false →
  ∃ s', MyGame.run ((keys, events) :: rest) s = (inr Returned, s') ∧
        scene_manager.active_scene s' = PyNone.
Proof.
  intros Ha Hc Hq Hs.
  destruct (prototype_facts.event_handling_spec keys events [] s r Ha)
    as (s0 & k & E0 & Ha0 & _ & Hn0 & _). cbn [app] in E0.
  specialize (Hn0 Hq).
  pose proof (event_handling_keeps_cls _ _ _ _ _ _ r E0) as Hc0.
  destruct (game_logic_without_space _ keys s0 r Ha0 ltac:(by rewrite Hc0) Hs)
    as (s1 & E1 & Ho1).
  eexists. split.
  - eapply prototype_facts.prototype_exits_on_none; [done..|].
    unfold scene_manager.obj in *. by rewrite Ho1.
  - done.
Qed.


Lemma builds_refl c r s : builds c r false s s.
Proof. by repeat split. Qed.

Lemma builds_print c r b line s s1 s' :
  print line s = (inr tt, s1) → builds c r b s1 s' → builds c r b s s'.
Proof.
  unfold print, modify. intros [= <-]. destruct s as [m a o l].
  unfold builds, scene_manager.obj. by cbn.
Qed.

Lemma builds_trans c r b1 b2 s s1 s2 :
  builds c r b1 s s1 → builds c r b2 s1 s2 → builds c r (b1 || b2) s s2.
Proof.
  intros (Ha1 & Hl1 & Hc1 & Hd1 & Ho1 & H1) (Ha2 & Hl2 & Hc2 & Hd2 & Ho2 & H2).
  split; [congruence|]. split; [congruence|]. split; [congruence|].
  split; [set_solver|]. split.
  { intros r' Hr' Hne. rewrite Ho2; [by apply Ho1|by apply Hd1|done]. }
  destruct b2; [rewrite orb_true_r|rewrite orb_false_r].
  - destruct H2 as (n & Hn & Hnx & Hob). exists n. split; [set_solver|done].
  - destruct b1; [|congruence].
    destruct H1 as (n & Hn & Hnx & Hob). exists n.
    unfold scene_manager.obj in *. rewrite H2. done.
Qed.

Lemma new_scene_builds c r s :
  r ∈ dom (scene_manager.objs s) →
  ∃ s', (n ← construct c; scene_manager.set_next_scene r (PyObj n)) s
        = (inr tt, s') ∧
        builds c r true s s'.
Proof.
  destruct s as [m a o l]. cbn [scene_manager.objs]. intros Hr.
  pose proof (is_fresh (dom m)) as Hn.
  assert (Hne : fresh (dom m) ≠ r) by (intros E; by rewrite E in Hn).
  unfold construct, Scene__init__, scene_manager.set_next_scene, print.
  destruct c;
    cbv [mbind Eff_bind mret Eff_ret gets modify
         scene_manager.objs scene_manager.active_scene scene_manager.stdout
         scene_manager.log];
    (eexists; split; [reflexivity|]);
    unfold builds, scene_manager.obj; cbn [scene_manager.objs
      scene_manager.active_scene scene_manager.log];
    generalize dependent (fresh (dom m)); intros n Hn Hne.
  all: repeat (first [rewrite lookup_total_insert_eq
                     |rewrite (lookup_total_insert_ne _ n r) by done];
               cbn [cls next_scene]).
  all: split; [done|]; split; [done|]; split; [done|].
  all: split; [rewrite !dom_insert_L; set_solver|].
  all: split; [intros r' Hr' Hr'n; rewrite lookup_insert_ne by done;
               rewrite !lookup_insert_ne by (intros ->; done); done|].
  all: exists n; split; [done|]; split; [done|].
  all: rewrite lookup_total_insert_ne by done.
  all: by rewrite lookup_total_insert_eq.
Qed.

Lemma for_builds c r events (body : Event → Eff scene_manager.Runtime unit) :
  (∀ e s, r ∈ dom (scene_manager.objs s) →
          ∃ s', body e s = (inr tt, s') ∧ builds c r (is_keydown K_SPACE e) s s') →
  ∀ s, r ∈ dom (scene_manager.objs s) →
       ∃ s', for_ events body s = (inr tt, s') ∧
             builds c r (existsb (is_keydown K_SPACE) events) s s'.
Proof.
  intros Hb. induction events as [|e events IH]; intros s Hr; cbn [for_ existsb].
  - exists s. split; [done|apply builds_refl].
  - rewrite bind_run. destruct (Hb e s Hr) as (s1 & E1 & H1). rewrite E1.
    cbv beta iota.
    destruct (IH s1) as (s2 & E2 & H2).
    { destruct H1 as (_ & _ & _ & Hd & _). by apply Hd. }
    exists s2. split; [done|]. by eapply builds_trans.
Qed.

(** X17. In the prototype a scene is never come back to: every press of
    the space bar among a frame's events makes [process_input] construct
    a new object of the class that follows (title, play, end, title, ...)
    and store it as [next_scene]; the object did not exist before, and it
    is initialised, its own [next_scene] being itself.  The scenes that
    exist are left as they are, and without a press of the space bar no
    object changes. *)
Theorem space_constructs_a_new_scene r events keys (s : scene_manager.Runtime) :
  cls (scene_manager.obj s r) ≠ Scene →
  ∃ s', process_input r events keys s = (inr tt, s') ∧
        builds (successor (cls (scene_manager.obj s r))) r
          (existsb (is_keydown K_SPACE) events) s s'.
Proof.
  intros Hc.
  assert (Hr : r ∈ dom (scene_manager.objs s)).
  { apply elem_of_dom. unfold scene_manager.obj in Hc.
    rewrite lookup_total_alt in Hc.
    destruct (scene_manager.objs s !! r); [done|]. by destruct Hc. }
  unfold process_input. rewrite bind_run. unfold gets at 1. cbv beta iota.
  destruct (cls (scene_manager.obj s r)); [done|..]; cbn [successor].
  all: apply for_builds; [|done]; clear; intros e s Hr;
    unfold is_keydown; unfold when at 1;
    destruct (type e =? KEYDOWN); cbn [andb]; [|by exists s; split; [|apply builds_refl]].
  - rewrite bind_run. destruct (print "down" s) as [res s1] eqn:Ep.
    assert (res = inr tt) as -> by (by injection Ep as <- _).
    cbv beta iota. unfold when. destruct (key e =? K_SPACE).
    + rewrite bind_run. destruct (print "space" s1) as [res s2] eqn:Ep2.
      assert (res = inr tt) as -> by (by injection Ep2 as <- _).
      cbv beta iota.
      destruct (new_scene_builds PlayScene r s2) as (s' & E & H).
      { injection Ep as <-. injection Ep2 as <-. done. }
      exists s'. split; [done|]. by do 2 (eapply builds_print; [done|]).
    + exists s1. split; [done|]. eapply builds_print; [done|apply builds_refl].
  - unfold when. destruct (key e =? K_SPACE).
    + by apply new_scene_builds.
    + exists s. split; [done|apply builds_refl].
  - rewrite bind_run. destruct (print "down" s) as [res s1] eqn:Ep.
    assert (res = inr tt) as -> by (by injection Ep as <- _).
    cbv beta iota. unfold when. destruct (key e =? K_SPACE).
    + rewrite bind_run. destruct (print "space" s1) as [res s2] eqn:Ep2.
      assert (res = inr tt) as -> by (by injection Ep2 as <- _).
      cbv beta iota.
      destruct (new_scene_builds TitleScene r s2) as (s' & E & H).
      { injection Ep as <-. injection Ep2 as <-. done. }
      exists s'. split; [done|]. by do 2 (eapply builds_print; [done|]).
    + exists s1. split; [done|]. eapply builds_print; [done|apply builds_refl].
Qed.

End more_prototype_facts.

(** ** The further properties at sample inputs *)

Lemma active_scene_is_never_none_witness :
  ∃ r', active_scene
          (snd (Game.run repo_classes [(no_keys, [mkEvent KEYDOWN K_UP])] in_play1))
        = PyObj r'.
Proof.
  apply (active_scene_is_never_none repo_classes
           [(no_keys, [mkEvent KEYDOWN K_UP])] in_play1 _ 1%nat Waiting).
  - reflexivity.
  - vm_compute. reflexivity.
Defined.

Lemma run_returns_only_after_a_quit_signal_witness :
  ∃ keys events,
    In (keys, events) [(no_keys, [mkEvent KEYDOWN K_UP; mkEvent QUIT 0])] ∧
    existsb (λ e, Game.is_quit_event e keys) events = true.
Proof.
  apply (run_returns_only_after_a_quit_signal repo_classes
           [(no_keys, [mkEvent KEYDOWN K_UP; mkEvent QUIT 0])] in_play1
           (snd (Game.run repo_classes
                   [(no_keys, [mkEvent KEYDOWN K_UP; mkEvent QUIT 0])] in_play1))).
  vm_compute. reflexivity.
Defined.

Lemma completed_frame_witness :
  let events := [mkEvent KEYDOWN K_RIGHT; mkEvent QUIT 0] in
  let s' := snd (Game.frame repo_classes no_keys events true in_play1) in
  false = true && forallb (non_quit no_keys) events ∧
  ∃ d,
    forallb is_transition d = true ∧
    log s' = (log in_play1 ++ managed 1%nat (List.filter (non_quit no_keys) events)
                ++ d ++ [display_flip; clock_tick])%list.
Proof.
  apply (completed_frame repo_classes no_keys
           [mkEvent KEYDOWN K_RIGHT; mkEvent QUIT 0] true in_play1).
  - reflexivity.
  - vm_compute. reflexivity.
Defined.

Lemma abstract_process_input_aborts_the_frame_witness :
  Game.frame repo_classes no_keys [mkEvent KEYDOWN K_SPACE] true started
  = (inl NotImplementedError,
     mkRuntime (world started) (active_scene started) (previous_scene started)
       (log started ++ [Call Driver 0%nat
                          (process_input_
                             (List.filter (non_quit no_keys)
                                [mkEvent KEYDOWN K_SPACE]))])).
Proof.
  apply (abstract_process_input_aborts_the_frame repo_classes no_keys
           [mkEvent KEYDOWN K_SPACE] true started 0%nat).
  - reflexivity.
  - reflexivity.
Defined.

Lemma enter_twice_witness :
  let s1 := snd (Scene.enter repo_classes 1%nat started) in
  Scene.enter repo_classes 1%nat s1 = (inr tt, s1).
Proof.
  apply (enter_twice repo_classes 1%nat started).
  - exact PlayScene1_load_assets_keeps_next_scene.
  - vm_compute. reflexivity.
Defined.

Lemma play1_process_input_witness :
  let w := world in_play1 in
  let events := [mkEvent KEYDOWN K_RIGHT; mkEvent KEYDOWN K_UP] in
  ∃ w',
    PlayScene1.process_input 1%nat events no_keys w = (inr tt, w') ∧
    scenes w' = scenes w ∧
    (∀ r', r' ≠ 1%nat → obj w' r' = obj w r') ∧
    obj w' 1%nat
    = mkSceneObj (cls (obj w 1%nat)) (cleanup_on_terminate (obj w 1%nat))
        (delay_asset_loading (obj w 1%nat)) (assets_loaded (obj w 1%nat))
        (terminated (obj w 1%nat) || existsb (is_keydown K_RIGHT) events)
        (play1_next 2%nat 3%nat events (next_scene (obj w 1%nat)))
        (font_xl (obj w 1%nat)).
Proof.
  apply (play1_process_input 1%nat 2%nat 3%nat
           [mkEvent KEYDOWN K_RIGHT; mkEvent KEYDOWN K_UP] no_keys (world in_play1)).
  - vm_compute. reflexivity.
  - vm_compute. reflexivity.
Defined.

Lemma end_process_input_witness :
  let w := world keep_end in
  let events := [mkEvent KEYUP K_RIGHT; mkEvent KEYDOWN K_RIGHT] in
  ∃ w',
    EndScene.process_input 1%nat events no_keys w = (inr tt, w') ∧
    scenes w' = scenes w ∧
    (∀ r', r' ≠ 1%nat → obj w' r' = obj w r') ∧
    obj w' 1%nat
    = mkSceneObj (cls (obj w 1%nat)) (cleanup_on_terminate (obj w 1%nat))
        (delay_asset_loading (obj w 1%nat)) (assets_loaded (obj w 1%nat))
        (terminated (obj w 1%nat) || existsb (is_keydown K_RIGHT) events)
        (if existsb (is_keydown K_RIGHT) events
         then Some (PyObj 0%nat) else next_scene (obj w 1%nat))
        (font_xl (obj w 1%nat)).
Proof.
  apply (end_process_input 1%nat 0%nat
           [mkEvent KEYUP K_RIGHT; mkEvent KEYDOWN K_RIGHT] no_keys (world keep_end)).
  vm_compute. reflexivity.
Defined.


Lemma terminated_is_never_reset_witness :
  terminated
    (obj (world (snd (Game.run repo_classes
                        [(no_keys, [mkEvent KEYDOWN K_UP]); (no_keys, [])]
                        play1_right_pressed))) 1%nat) = true.
Proof.
  apply (terminated_is_never_reset
           [(no_keys, [mkEvent KEYDOWN K_UP]); (no_keys, [])]
           play1_right_pressed 1%nat).
  vm_compute. reflexivity.
Defined.

Lemma scene_change_returns_witness :
  ∃ s', Game.check_for_scene_change repo_classes play1_right_pressed = (inr tt, s').
Proof.
  apply (scene_change_returns play1_right_pressed 1%nat 2%nat).
  - reflexivity.
  - vm_compute. reflexivity.
Defined.

Lemma frame_returns_witness :
  ∃ running' s',
    Game.frame repo_classes no_keys [mkEvent KEYDOWN K_RIGHT] true in_play1
    = (inr running', s').
Proof.
  apply (frame_returns no_keys [mkEvent KEYDOWN K_RIGHT] true in_play1 1%nat 1%nat).
  - reflexivity.
  - vm_compute. reflexivity.
  - exists (mkFont 96). vm_compute. reflexivity.
  - left. split; [vm_compute; reflexivity|].
    split; [exists 2%nat | exists 3%nat]; vm_compute; reflexivity.
Defined.

Lemma active_scene_is_loaded_witness :
  let s' := snd (Game.run repo_classes [(no_keys, [mkEvent KEYDOWN K_UP])] in_play1) in
  ∃ r', active_scene s' = PyObj r' ∧ assets_loaded (obj (world s') r') = true.
Proof.
  apply (active_scene_is_loaded [(no_keys, [mkEvent KEYDOWN K_UP])] in_play1 _
           1%nat Waiting).
  - reflexivity.
  - vm_compute. reflexivity.
  - vm_compute. reflexivity.
Defined.

Lemma reentry_without_reload_witness :
  ∃ s',
    Game.check_for_scene_change repo_classes play1_to_title = (inr tt, s') ∧
    active_scene s' = PyObj 0%nat ∧
    log s' = (log play1_to_title ++ Call Driver 1%nat exit_
                :: (if terminated (obj (world play1_to_title) 1%nat)
                    then [Call Driver 1%nat cleanup_] else [])
                ++ [Call Driver 0%nat enter_])%list ∧
    assets_loaded (obj (world s') 0%nat) = true ∧
    font_xl (obj (world s') 0%nat) = font_xl (obj (world play1_to_title) 0%nat).
Proof.
  apply (reentry_without_reload play1_to_title 1%nat 0%nat).
  - reflexivity.
  - vm_compute. reflexivity.
  - discriminate.
  - vm_compute. reflexivity.
Defined.

Lemma leaving_a_terminated_scene_unloads_it_witness :
  ∃ s',
    Game.check_for_scene_change repo_classes play1_right_pressed = (inr tt, s') ∧
    active_scene s' = PyObj 2%nat ∧
    previous_scene s' = Some (PyObj 1%nat) ∧
    font_xl (obj (world s') 1%nat) = None ∧
    assets_loaded (obj (world s') 1%nat) = false ∧
    terminated (obj (world s') 1%nat) = true ∧
    assets_loaded (obj (world s') 2%nat) = true ∧
    next_scene (obj (world s') 2%nat) = Some (PyObj 2%nat).
Proof.
  apply (leaving_a_terminated_scene_unloads_it play1_right_pressed 1%nat 2%nat).
  - reflexivity.
  - vm_compute. reflexivity.
  - discriminate.
  - vm_compute. reflexivity.
  - left. vm_compute. reflexivity.
Defined.

Lemma prototype_quit_ends_the_loop_witness :
  ∃ s', scene_manager.MyGame.run
          [(no_keys, [mkEvent KEYDOWN K_q; mkEvent QUIT 0])] proto_title
        = (inr Returned, s') ∧
        scene_manager.active_scene s' = PyNone.
Proof.
  apply (more_prototype_facts.prototype_quit_ends_the_loop no_keys
           [mkEvent KEYDOWN K_q; mkEvent QUIT 0] [] proto_title 0%nat).
  - reflexivity.
  - vm_compute. discriminate.
  - reflexivity.
  - reflexivity.
Defined.

Lemma space_constructs_a_new_scene_witness :
  ∃ s', scene_manager.process_input 0%nat
          [mkEvent KEYDOWN K_q; mkEvent KEYDOWN K_SPACE] no_keys proto_title
        = (inr tt, s') ∧
        builds (successor (scene_manager.cls (scene_manager.obj proto_title 0%nat)))
          0%nat
          (existsb (is_keydown K_SPACE)
             [mkEvent KEYDOWN K_q; mkEvent KEYDOWN K_SPACE])
          proto_title s'.
Proof.
  apply (more_prototype_facts.space_constructs_a_new_scene 0%nat
           [mkEvent KEYDOWN K_q; mkEvent KEYDOWN K_SPACE] no_keys proto_title).
  vm_compute. discriminate.
Defined.
